(** * not-shazam: the audio container codec and the document-store layer

    A shallow embedding of [wav/wav.go] (package [wav]) and of the
    database client (package [utils]), with the properties of the
    specification stated and proved against them.

    Conventions of the embedding:
    - a Go [int] is a [Z]; conversions to fixed-width unsigned types
      ([uint16(x)], [uint32(x)]) are written out as [x mod 2^w];
    - a [[]byte] is a [list byte];
    - a [float64] is a primitive binary64 [float];
    - a Go function returning [(T, error)] returns an [outcome T]; a
      run-time panic (failed type assertion, index out of range) is the
      third constructor [Panic];
    - the file system and the document store are explicit states. *)

From Stdlib Require Import ZArith Lia List Floats Uint63 QArith.
From Stdlib.Strings Require Import Byte.
From stdpp Require Import gmap strings list.

Set Warnings "-register-all".
Local Open Scope Z_scope.

(** ** Results of fallible calls *)

Inductive outcome (E A : Type) : Type :=
| Ok (a : A)
| Err (e : E)
| Panic.
Arguments Ok {E A} a.
Arguments Err {E A} e.
Arguments Panic {E A}.

(** ** Fixed-width integers and little-endian byte order *)

#[global] Instance byte_eq_decision : EqDecision byte := Byte.byte_eq_dec.

Definition uint16 (x : Z) : Z := x mod 2 ^ 16.
Definition uint32 (x : Z) : Z := x mod 2 ^ 32.

(** [int16(u)] for a [u] of type [uint16]: two's complement. *)
Definition int16 (u : Z) : Z := if u <? 2 ^ 15 then u else u - 2 ^ 16.

(** [byte(x)]: the low eight bits. *)
Definition byte_of_Z (x : Z) : byte :=
  match Byte.of_N (Z.to_N (x mod 256)) with
  | Some b => b
  | None => x00
  end.

Definition Z_of_byte (b : byte) : Z := Z.of_N (Byte.to_N b).

(** [binary.LittleEndian.PutUint16] and [PutUint32]. *)
Definition PutUint16 (v : Z) : list byte :=
  [byte_of_Z v; byte_of_Z (Z.shiftr v 8)].

Definition PutUint32 (v : Z) : list byte :=
  [byte_of_Z v; byte_of_Z (Z.shiftr v 8);
   byte_of_Z (Z.shiftr v 16); byte_of_Z (Z.shiftr v 24)].

(** [binary.LittleEndian.Uint16] and [Uint32] on the bytes read. *)
Definition Uint16 (b0 b1 : byte) : Z :=
  Z.lor (Z_of_byte b0) (Z.shiftl (Z_of_byte b1) 8).

Definition Uint32 (b0 b1 b2 b3 : byte) : Z :=
  Z.lor (Z.lor (Z.lor (Z_of_byte b0) (Z.shiftl (Z_of_byte b1) 8))
               (Z.shiftl (Z_of_byte b2) 16))
        (Z.shiftl (Z_of_byte b3) 24).

(** [float64(n)] for an integer [n] with [|n| < 2^63]. *)
Definition float64_of_Z (n : Z) : float :=
  if n <? 0 then PrimFloat.opp (PrimFloat.of_uint63 (Uint63.of_Z (- n)))
  else PrimFloat.of_uint63 (Uint63.of_Z n).

(** The exact rational value of a finite binary64 number. *)
Definition float_value (f : float) : option Q :=
  match Prim2SF f with
  | S754_zero _ => Some (0 # 1)%Q
  | S754_finite s m e =>
      let v := if s then Z.neg m else Z.pos m in
      Some (match e with
            | Z0 => v # 1
            | Zpos p => (v * 2 ^ Zpos p) # 1
            | Zneg p => v # (2 ^ p)
            end)%Q
  | _ => None
  end.

(** ** Package [wav] *)

Module Wav.

(** The errors of the package, one constructor per [errors.New] /
    [fmt.Errorf] site, and the failures of the [os] calls. *)
Inductive error : Type :=
| ErrCreate                        (* os.Create failed *)
| ErrNotPositive (sampleRate channels bitsPerSample : Z)
                                   (* "values must be greater than zero (...)" *)
| ErrNotDivisible                  (* "data size not divisible by channels" *)
| ErrReadFile                      (* ioutil.ReadFile failed *)
| ErrBinaryRead                    (* binary.Read failed *)
| ErrTooSmall                      (* "invalid WAV file size (too small)" *)
| ErrBadHeader                     (* "invalid WAV header format" *)
| ErrUnsupportedBits               (* "unsupported bits per sample format" *)
| ErrInputLength.                  (* "invalid input length" *)

(** *** The file system

    Files are byte sequences found by name.  [fs_denied] holds the names
    at which [os.Create] fails (missing directory, no permission); a
    write to an open file is taken to succeed. *)
Record FileSystem : Type := mkFS {
  fs_files : gmap string (list byte);
  fs_denied : gset string
}.

(** [os.Create]: creates the file or truncates it to length zero. *)
Definition os_Create (fs : FileSystem) (filename : string)
  : outcome error FileSystem :=
  if decide (filename ∈ fs_denied fs) then Err ErrCreate
  else Ok (mkFS (<[filename := []]> (fs_files fs)) (fs_denied fs)).

(** [f.Write(p)] on the file opened by [os.Create]: appends at the offset. *)
Definition file_Write (fs : FileSystem) (f : string) (p : list byte)
  : FileSystem :=
  mkFS (<[f := default [] (fs_files fs !! f) ++ p]> (fs_files fs))
       (fs_denied fs).

(** [ioutil.ReadFile]. *)
Definition ReadFile (fs : FileSystem) (filename : string)
  : outcome error (list byte) :=
  match fs_files fs !! filename with
  | Some data => Ok data
  | None => Err ErrReadFile
  end.

(** *** The header *)

Record WavHeader : Type := mkWavHeader {
  ChunkID : list byte;        (* [4]byte *)
  ChunkSize : Z;              (* uint32 *)
  Format : list byte;         (* [4]byte *)
  Subchunk1ID : list byte;    (* [4]byte *)
  Subchunk1Size : Z;          (* uint32 *)
  AudioFormat : Z;            (* uint16 *)
  NumChannels : Z;            (* uint16 *)
  SampleRate : Z;             (* uint32 *)
  BytesPerSec : Z;            (* uint32 *)
  BlockAlign : Z;             (* uint16 *)
  BitsPerSample : Z;          (* uint16 *)
  Subchunk2ID : list byte;    (* [4]byte *)
  Subchunk2Size : Z           (* uint32 *)
}.

Definition RIFF : list byte := [x52; x49; x46; x46].
Definition WAVE : list byte := [x57; x41; x56; x45].
Definition fmt_ : list byte := [x66; x6d; x74; x20].
Definition data_ : list byte := [x64; x61; x74; x61].

(** [binary.Write(f, binary.LittleEndian, header)]: the fields in
    declaration order, without padding. *)
Definition binary_Write (h : WavHeader) : list byte :=
  firstn 4 (ChunkID h) ++ PutUint32 (ChunkSize h) ++
  firstn 4 (Format h) ++ firstn 4 (Subchunk1ID h) ++
  PutUint32 (Subchunk1Size h) ++ PutUint16 (AudioFormat h) ++
  PutUint16 (NumChannels h) ++ PutUint32 (SampleRate h) ++
  PutUint32 (BytesPerSec h) ++ PutUint16 (BlockAlign h) ++
  PutUint16 (BitsPerSample h) ++ firstn 4 (Subchunk2ID h) ++
  PutUint32 (Subchunk2Size h).

(** A reader over a byte slice, as [bytes.NewReader] gives to
    [binary.Read]: each field consumes its bytes from the front. *)
Definition reader (A : Type) : Type := list byte -> option (A * list byte).

Definition rret {A} (a : A) : reader A := fun s => Some (a, s).

Definition rbind {A B} (r : reader A) (k : A -> reader B) : reader B :=
  fun s => match r s with
           | Some (a, s') => k a s'
           | None => None
           end.

Notation "'read' x ':=' r 'in' k" := (rbind r (fun x => k))
  (at level 10, x name, r at level 100, k at level 200).

Definition read_tag : reader (list byte) := fun s =>
  match s with
  | b0 :: b1 :: b2 :: b3 :: s' => Some ([b0; b1; b2; b3], s')
  | _ => None
  end.

Definition read_u16 : reader Z := fun s =>
  match s with
  | b0 :: b1 :: s' => Some (Uint16 b0 b1, s')
  | _ => None
  end.

Definition read_u32 : reader Z := fun s =>
  match s with
  | b0 :: b1 :: b2 :: b3 :: s' => Some (Uint32 b0 b1 b2 b3, s')
  | _ => None
  end.

(** [binary.Read(r, binary.LittleEndian, &header)]. *)
Definition binary_Read : reader WavHeader :=
  read chunkID := read_tag in
  read chunkSize := read_u32 in
  read format := read_tag in
  read subchunk1ID := read_tag in
  read subchunk1Size := read_u32 in
  read audioFormat := read_u16 in
  read numChannels := read_u16 in
  read sampleRate := read_u32 in
  read bytesPerSec := read_u32 in
  read blockAlign := read_u16 in
  read bitsPerSample := read_u16 in
  read subchunk2ID := read_tag in
  read subchunk2Size := read_u32 in
  rret (mkWavHeader chunkID chunkSize format subchunk1ID subchunk1Size
          audioFormat numChannels sampleRate bytesPerSec blockAlign
          bitsPerSample subchunk2ID subchunk2Size).

(** *** Encoding *)

(** [writeWavHeader].  The remainder by [channels] panics when
    [channels] is zero; the caller excludes that. *)
Definition writeWavHeader (fs : FileSystem) (f : string) (data : list byte)
    (sampleRate channels bitsPerSample : Z)
  : FileSystem * outcome error unit :=
  if channels =? 0 then (fs, Panic)
  else if negb (Z.rem (Z.of_nat (length data)) channels =? 0)
  then (fs, Err ErrNotDivisible)
  else
    let subchunk1Size := uint32 16 in
    let bytesPerSample := Z.quot bitsPerSample 8 in
    let blockAlign := uint16 (channels * bytesPerSample) in
    let subchunk2Size := uint32 (Z.of_nat (length data)) in
    let header :=
      {| ChunkID := RIFF;
         ChunkSize := uint32 (36 + Z.of_nat (length data));
         Format := WAVE;
         Subchunk1ID := fmt_;
         Subchunk1Size := subchunk1Size;
         AudioFormat := uint16 1;
         NumChannels := uint16 channels;
         SampleRate := uint32 sampleRate;
         BytesPerSec := uint32 (sampleRate * channels * bytesPerSample);
         BlockAlign := blockAlign;
         BitsPerSample := uint16 bitsPerSample;
         Subchunk2ID := data_;
         Subchunk2Size := subchunk2Size |} in
    (file_Write fs f (binary_Write header), Ok tt).

(** [WriteWavFile]: the file is created first, the parameters are
    checked next, then header and data are written. *)
Definition WriteWavFile (fs : FileSystem) (filename : string)
    (data : list byte) (sampleRate channels bitsPerSample : Z)
  : FileSystem * outcome error unit :=
  match os_Create fs filename with
  | Err e => (fs, Err e)
  | Panic => (fs, Panic)
  | Ok fs1 =>
      if (sampleRate <=? 0) || (channels <=? 0) || (bitsPerSample <=? 0)
      then (fs1, Err (ErrNotPositive sampleRate channels bitsPerSample))
      else
        match writeWavHeader fs1 filename data sampleRate channels
                bitsPerSample with
        | (fs2, Ok _) => (file_Write fs2 filename data, Ok tt)
        | (fs2, Err e) => (fs2, Err e)
        | (fs2, Panic) => (fs2, Panic)
        end
  end.

(** *** Decoding *)

Record WavInfo : Type := mkWavInfo {
  Channels : Z;
  SampleRate' : Z;
  Data : list byte;
  Duration : float
}.

(** [ReadWavInfo]. *)
Definition ReadWavInfo (fs : FileSystem) (filename : string)
  : outcome error WavInfo :=
  match ReadFile fs filename with
  | Err e => Err e
  | Panic => Panic
  | Ok data =>
      if Z.of_nat (length data) <? 44 then Err ErrTooSmall
      else
        match binary_Read (firstn 44 data) with
        | None => Err ErrBinaryRead
        | Some (header, _) =>
            if negb (bool_decide (ChunkID header = RIFF))
               || negb (bool_decide (Format header = WAVE))
               || negb (AudioFormat header =? 1)
            then Err ErrBadHeader
            else
              let info_Data := skipn 44 data in
              if BitsPerSample header =? 16 then
                Ok {| Channels := NumChannels header;
                      SampleRate' := SampleRate header;
                      Data := info_Data;
                      Duration :=
                        PrimFloat.div
                          (float64_of_Z (Z.of_nat (length info_Data)))
                          (float64_of_Z
                             (NumChannels header * 2 * SampleRate header)) |}
              else Err ErrUnsupportedBits
        end
  end.

(** *** Samples *)

(** The body of the loop of [WavBytesToSamples] for one pair of bytes. *)
Definition sample_of (b0 b1 : byte) : float :=
  let sample := int16 (Uint16 b0 b1) in
  PrimFloat.div (float64_of_Z sample) 32768%float.

(** The loop [for i := 0; i < len(input); i += 2]. *)
Fixpoint samples_loop (input : list byte) : list float :=
  match input with
  | b0 :: b1 :: rest => sample_of b0 b1 :: samples_loop rest
  | _ => []
  end.

Definition WavBytesToSamples (input : list byte)
  : outcome error (list float) :=
  if negb (Z.rem (Z.of_nat (length input)) 2 =? 0) then Err ErrInputLength
  else Ok (samples_loop input).

End Wav.

(** ** Package [strings] of the Go library, as far as the client uses it *)

Fixpoint drop_str (n : nat) (s : string) : string :=
  match n, s with
  | O, _ => s
  | S n', String _ s' => drop_str n' s'
  | S _, EmptyString => EmptyString
  end.

Fixpoint take_str (n : nat) (s : string) : string :=
  match n, s with
  | O, _ => EmptyString
  | S n', String c s' => String c (take_str n' s')
  | S _, EmptyString => EmptyString
  end.

(** [strings.Index(s, substr)]: the byte offset of the first occurrence
    of [substr] in [s]; Go's [-1] is [None]. *)
Fixpoint Index (s substr : string) : option nat :=
  if String.prefix substr s then Some O
  else match s with
       | EmptyString => None
       | String _ s' => option_map S (Index s' substr)
       end.

(** [strings.Contains(s, substr)] is [Index(s, substr) >= 0]. *)
Definition Contains (s substr : string) : bool :=
  match Index s substr with Some _ => true | None => false end.

(** [strings.Count(s, substr)] for a non-empty [substr]: the number of
    non-overlapping occurrences.  The loop cuts [s] behind each
    occurrence; [String.length s] rounds are enough. *)
Fixpoint Count_loop (fuel : nat) (s substr : string) : nat :=
  match fuel with
  | O => O
  | S fuel' =>
      match Index s substr with
      | None => O
      | Some i =>
          S (Count_loop fuel' (drop_str (i + String.length substr) s) substr)
      end
  end.

Definition Count (s substr : string) : nat :=
  Count_loop (String.length s) s substr.

(** [strings.Split(s, sep)] for a non-empty [sep] ([genSplit] with
    [n = Count(s, sep) + 1]): at most [n - 1] cuts, each at the first
    occurrence of [sep] in what is left; the last piece is the rest. *)
Fixpoint genSplit (cuts : nat) (s sep : string) : list string :=
  match cuts with
  | O => [s]
  | S cuts' =>
      match Index s sep with
      | None => [s]
      | Some m =>
          take_str m s :: genSplit cuts' (drop_str (m + String.length sep) s) sep
      end
  end.

Definition Split (s sep : string) : list string :=
  genSplit (Count s sep) s sep.

(** ** Package [utils]: the database client *)

Module Db.

(** *** Documents

    A BSON value as the driver hands it back when decoding into a
    [bson.M]: [int32], [int64], [string], [primitive.A], [primitive.M].
    A document lists its fields in order; a lookup by name takes the
    first, and a missing name gives Go's [nil]. *)
Inductive Bson : Type :=
| BInt32 (n : Z)
| BInt64 (n : Z)
| BString (s : string)
| BArray (items : list Bson)
| BDoc (fields : list (string * Bson)).

Definition Document : Type := list (string * Bson).

Fixpoint doc_get (d : Document) (k : string) : option Bson :=
  match d with
  | [] => None
  | (k', v) :: d' => if String.eqb k' k then Some v else doc_get d' k
  end.

Fixpoint doc_set (d : Document) (k : string) (v : Bson) : Document :=
  match d with
  | [] => [(k, v)]
  | (k', v') :: d' =>
      if String.eqb k' k then (k', v) :: d' else (k', v') :: doc_set d' k v
  end.

(** Equality of values as the server compares them in an equality
    filter and in a unique index: numbers by value whatever their
    width, everything else by structure. *)
Fixpoint bson_eqb (a b : Bson) : bool :=
  match a, b with
  | BInt32 x, BInt32 y | BInt32 x, BInt64 y
  | BInt64 x, BInt32 y | BInt64 x, BInt64 y => x =? y
  | BString s, BString t => String.eqb s t
  | BArray l, BArray m =>
      (fix all2 (l m : list Bson) : bool :=
         match l, m with
         | [], [] => true
         | x :: l', y :: m' => bson_eqb x y && all2 l' m'
         | _, _ => false
         end) l m
  | BDoc l, BDoc m =>
      (fix all2 (l m : list (string * Bson)) : bool :=
         match l, m with
         | [], [] => true
         | (j, x) :: l', (k, y) :: m' =>
             String.eqb j k && bson_eqb x y && all2 l' m'
         | _, _ => false
         end) l m
  | _, _ => false
  end.

(** A missing field is indexed as null; null equals only null. *)
Definition field_eqb (a b : option Bson) : bool :=
  match a, b with
  | Some x, Some y => bson_eqb x y
  | None, None => true
  | _, _ => false
  end.

(** *** The store

    The two collections of database "song-recognition", each a list of
    documents in insertion order, and whether collection "songs" carries
    the unique compound index on (ytID, key).  The server is taken to be
    reachable: the only failures are those it reports for the request. *)
Record Store : Type := mkStore {
  fingerprints : list Document;
  songs : list Document;
  songs_index : bool
}.

(** The equality filter [bson.M{filterKey: value}] for a value that is
    a number or a string, as this package passes for [_id], for an
    address, for [ytID] and for [key]. *)
Definition matches (filterKey : string) (value : Bson) (d : Document) : bool :=
  match doc_get d filterKey with
  | Some v => bson_eqb v value
  | None => false
  end.

(** [collection.FindOne(ctx, bson.M{filterKey: value})]; [None] is
    [mongo.ErrNoDocuments]. *)
Definition FindOne (c : list Document) (filterKey : string) (value : Bson)
  : option Document :=
  List.find (matches filterKey value) c.

Inductive error : Type :=
| ErrUpsert                   (* "error upserting document: %s" *)
| ErrCouplesField (address : Z)
      (* "couples field in document for address %d is not valid" *)
| ErrCoupleFormat (address : Z)
      (* "invalid couple format in document for address %d" *)
| ErrCreateIndex              (* "failed to create unique index: %v" *)
| ErrSongExists               (* "song with ytID or key already exists: %v" *)
| ErrRegister                 (* "failed to register song: %v" *)
| ErrFilterKey                (* "invalid filter key" *)
| ErrRetrieve                 (* "failed to retrieve song: %v" *)
| ErrDrop.                    (* "error deleting collection: %v" *)

(** *** Fingerprints *)

(** [models.Couple]; both fields are [uint32]. *)
Record Couple : Type := mkCouple {
  AnchorTimeMs : Z;
  SongID : Z
}.

Definition couple_ok (c : Couple) : Prop :=
  0 <= AnchorTimeMs c < 2 ^ 32 /\ 0 <= SongID c < 2 ^ 32.

(** The pushed value [bson.M{"anchorTimeMs": ..., "songID": ...}]; the
    driver writes a [uint32] as a 64-bit integer. *)
Definition couple_doc (couple : Couple) : Bson :=
  BDoc [("anchorTimeMs"%string, BInt64 (AnchorTimeMs couple));
        ("songID"%string, BInt64 (SongID couple))].

(** The update [{"$push": {"couples": item}}] on one document: the
    array grows by [item], a missing field becomes a one-element array,
    and the server rejects the push on a field that is not an array. *)
Definition push_couples (d : Document) (item : Bson) : option Document :=
  match doc_get d "couples" with
  | None => Some (d ++ [("couples"%string, BArray [item])])
  | Some (BArray items) => Some (doc_set d "couples" (BArray (items ++ [item])))
  | Some _ => None
  end.

(** [collection.UpdateOne(ctx, bson.M{"_id": address}, update, upsert)]:
    the first document with that [_id] is updated; without one, the
    upsert inserts the document made of the filter and the update. *)
Fixpoint UpdateOne (c : list Document) (address : Z) (item : Bson)
  : option (list Document) :=
  match c with
  | [] => Some [[("_id"%string, BInt64 address);
                 ("couples"%string, BArray [item])]]
  | d :: c' =>
      if matches "_id" (BInt64 address) d
      then option_map (fun d' => d' :: c') (push_couples d item)
      else option_map (cons d) (UpdateOne c' address item)
  end.

(** [StoreFingerprints].  [entries] are the entries of the Go map
    [fingerprints] in the order the [range] statement visits them. *)
Fixpoint StoreFingerprints_range (c : list Document)
    (entries : list (Z * Couple)) : list Document * outcome error unit :=
  match entries with
  | [] => (c, Ok tt)
  | (address, couple) :: rest =>
      match UpdateOne c address (couple_doc couple) with
      | None => (c, Err ErrUpsert)
      | Some c' => StoreFingerprints_range c' rest
      end
  end.

Definition StoreFingerprints (st : Store) (entries : list (Z * Couple))
  : Store * outcome error unit :=
  let (c, r) := StoreFingerprints_range (fingerprints st) entries in
  (mkStore c (songs st) (songs_index st), r).

(** [entries] is an iteration order of the map [fingerprints]. *)
Definition range_of (fingerprints : gmap Z Couple)
    (entries : list (Z * Couple)) : Prop :=
  entries ≡ₚ map_to_list fingerprints.

(** The loop over [couplesList] in [GetCouples]; [docCouples] is the
    slice built so far.  The two conversions [.(int64)] are unchecked
    type assertions. *)
Fixpoint couples_loop (address : Z) (couplesList : list Bson)
    (docCouples : list Couple) : outcome error (list Couple) :=
  match couplesList with
  | [] => Ok docCouples
  | item :: rest =>
      match item with
      | BDoc itemMap =>
          match doc_get itemMap "anchorTimeMs" with
          | Some (BInt64 a) =>
              match doc_get itemMap "songID" with
              | Some (BInt64 s) =>
                  let couple :=
                    {| AnchorTimeMs := uint32 a; SongID := uint32 s |} in
                  couples_loop address rest (docCouples ++ [couple])
              | _ => Panic
              end
          | _ => Panic
          end
      | _ => Err (ErrCoupleFormat address)
      end
  end.

(** The loop over [addresses] in [GetCouples]; [couples] is the result
    map built so far. *)
Fixpoint GetCouples_loop (c : list Document) (addresses : list Z)
    (couples : gmap Z (list Couple)) : outcome error (gmap Z (list Couple)) :=
  match addresses with
  | [] => Ok couples
  | address :: rest =>
      match FindOne c "_id" (BInt64 address) with
      | None => GetCouples_loop c rest couples
      | Some result =>
          match doc_get result "couples" with
          | Some (BArray couplesList) =>
              match couples_loop address couplesList [] with
              | Ok docCouples =>
                  GetCouples_loop c rest (<[address := docCouples]> couples)
              | Err e => Err e
              | Panic => Panic
              end
          | _ => Err (ErrCouplesField address)
          end
      end
  end.

Definition GetCouples (st : Store) (addresses : list Z)
  : outcome error (gmap Z (list Couple)) :=
  GetCouples_loop (fingerprints st) addresses ∅.

(** The operation as the specification words it: a mapping from each
    address to a sequence of couples, every couple of the sequence
    appended to the bucket of its address. *)
Fixpoint spec_append_all (c : list Document) (address : Z)
    (couples : list Couple) : option (list Document) :=
  match couples with
  | [] => Some c
  | couple :: rest =>
      match UpdateOne c address (couple_doc couple) with
      | Some c' => spec_append_all c' address rest
      | None => None
      end
  end.

Fixpoint StoreFingerprints_spec (c : list Document)
    (entries : list (Z * list Couple)) : option (list Document) :=
  match entries with
  | [] => Some c
  | (address, couples) :: rest =>
      match spec_append_all c address couples with
      | Some c' => StoreFingerprints_spec c' rest
      | None => None
      end
  end.

(** *** Songs *)

(** Modelled from the spec: [GenerateSongKey] is not among the sources;
    the identity key is title + separator + artist, and [GetSong]
    splits it at "---". *)
Definition GenerateSongKey (songTitle songArtist : string) : string :=
  String.append songTitle (String.append "---" songArtist).

(** The key of a document in the index on (ytID, key). *)
Definition index_key (d : Document) : option Bson * option Bson :=
  (doc_get d "ytID", doc_get d "key").

Definition index_key_eqb (j k : option Bson * option Bson) : bool :=
  field_eqb (fst j) (fst k) && field_eqb (snd j) (snd k).

(** No two documents of the collection have the same (ytID, key). *)
Fixpoint unique_keys (c : list Document) : bool :=
  match c with
  | [] => true
  | d :: c' =>
      forallb (fun d' => negb (index_key_eqb (index_key d) (index_key d'))) c'
      && unique_keys c'
  end.

(** [Indexes().CreateOne] with [SetUnique(true)]: nothing to do when the
    index exists; otherwise the server builds it, and refuses when the
    documents at hand already violate it. *)
Definition CreateOne (st : Store) : option Store :=
  if songs_index st then Some st
  else if unique_keys (songs st)
       then Some (mkStore (fingerprints st) (songs st) true)
       else None.

(** [collection.InsertOne]: the server refuses a document whose [_id]
    is taken, or whose index key is taken when the index exists
    ([mongo.IsDuplicateKeyError]); otherwise the document is added. *)
Definition InsertOne (st : Store) (doc : Document) : option Store :=
  if existsb (fun d => field_eqb (doc_get d "_id") (doc_get doc "_id"))
             (songs st)
     || songs_index st
        && existsb (fun d => index_key_eqb (index_key d) (index_key doc))
                   (songs st)
  then None
  else Some (mkStore (fingerprints st) (songs st ++ [doc]) (songs_index st)).

(** [RegisterSong].  [songID] is the value [GenerateUniqueID()] returns
    in this call; that function is not among the sources. *)
Definition RegisterSong (st : Store) (songID : Z)
    (songTitle songArtist ytID : string) : Store * outcome error Z :=
  match CreateOne st with
  | None => (st, Err ErrCreateIndex)
  | Some st1 =>
      let key := GenerateSongKey songTitle songArtist in
      match InsertOne st1 [("_id"%string, BInt64 songID);
                           ("key"%string, BString key);
                           ("ytID"%string, BString ytID)] with
      | None => (st1, Err ErrSongExists)
      | Some st2 => (st2, Ok songID)
      end
  end.

Record Song : Type := mkSong {
  Title : string;
  Artist : string;
  YouTubeID : string
}.

Definition FILTER_KEYS : string := "_id | ytID | key".

(** What the server decides on its own rules, which this development
    does not fix.  [query filterKey value] is its reading of a filter
    [bson.M{filterKey: value}] whose value is an array or a document
    (query operators such as [$gt], matching of arrays and
    sub-documents): the test it applies to each document, or [None] when
    it rejects the filter.  [refuses_drop name] is whether it rejects
    the drop of a collection of that name, as it does for a name that is
    not a valid namespace. *)
Class Server : Type := mkServer {
  query : string -> Bson -> option (Document -> bool);
  refuses_drop : string -> bool
}.

(** The test a filter [bson.M{filterKey: value}] applies to a document:
    equality for a number or a string, the server's reading otherwise. *)
Definition selects `{Server} (filterKey : string) (value : Bson)
  : option (Document -> bool) :=
  match value with
  | BArray _ | BDoc _ => query filterKey value
  | _ => Some (matches filterKey value)
  end.

(** [GetSong]: the triple [(s, songExists, e)] is [Ok (s, songExists)]
    when [e] is [nil].  [FindOne] returns the first selected document,
    [mongo.ErrNoDocuments] without one, and another error when the
    server rejects the filter. *)
Definition GetSong `{Server} (st : Store) (filterKey : string) (value : Bson)
  : outcome error (Song * bool) :=
  if negb (Contains FILTER_KEYS filterKey) then Err ErrFilterKey
  else
    match selects filterKey value with
    | None => Err ErrRetrieve
    | Some selected =>
        match List.find selected (songs st) with
        | None => Ok (mkSong "" "" "", false)
        | Some song =>
            match doc_get song "ytID" with
            | Some (BString ytID) =>
                match doc_get song "key" with
                | Some (BString key) =>
                    match Split key "---" !! 0%nat with
                    | Some title =>
                        match Split key "---" !! 1%nat with
                        | Some artist => Ok (mkSong title artist ytID, true)
                        | None => Panic
                        end
                    | None => Panic
                    end
                | _ => Panic
                end
            | _ => Panic
            end
        end
    end.

Definition GetSongByID `{Server} (st : Store) (songID : Z) :=
  GetSong st "_id" (BInt64 songID).

Definition GetSongByYTID `{Server} (st : Store) (ytID : string) :=
  GetSong st "ytID" (BString ytID).

Definition GetSongByKey `{Server} (st : Store) (key : string) :=
  GetSong st "key" (BString key).

(** *** Counting and deleting *)

(** [TotalSongs]: [CountDocuments] with the empty filter. *)
Definition TotalSongs (st : Store) : outcome error Z :=
  Ok (Z.of_nat (length (songs st))).

(** [collection.DeleteOne(ctx, filter)]: the first document the filter
    matches is removed; without a match nothing changes. *)
Fixpoint DeleteOne (c : list Document) (filterKey : string) (value : Bson)
  : list Document :=
  match c with
  | [] => []
  | d :: c' =>
      if matches filterKey value d then c'
      else d :: DeleteOne c' filterKey value
  end.

(** [DeleteSongByID]. *)
Definition DeleteSongByID (st : Store) (songID : Z)
  : Store * outcome error unit :=
  (mkStore (fingerprints st) (DeleteOne (songs st) "_id" (BInt64 songID))
           (songs_index st), Ok tt).

(** [DeleteCollection]: [Drop] removes the documents of the named
    collection and its indexes.  For a name other than those of the two
    collections the database has, nothing is stored under it: the call
    fails when the server rejects the drop, and otherwise succeeds (the
    driver passes over the answer that the collection does not exist). *)
Definition DeleteCollection `{Server} (st : Store) (collectionName : string)
  : Store * outcome error unit :=
  if String.eqb collectionName "fingerprints"
  then (mkStore [] (songs st) (songs_index st), Ok tt)
  else if String.eqb collectionName "songs"
       then (mkStore (fingerprints st) [] false, Ok tt)
       else if refuses_drop collectionName then (st, Err ErrDrop)
            else (st, Ok tt).

End Db.

(** The closed examples of this file are stated for this server.  They
    pass numbers and strings as filter values, for which it is not
    asked; it rejects the drop of the collection with the empty name. *)
#[global] Instance example_server : Db.Server :=
  Db.mkServer (fun _ _ => None) (fun name => String.eqb name "").

(** ** Notions used in the statements *)

Import Wav Db.

(** What [WriteWavFile] leaves on disk when it succeeds. *)
Definition wav_image (data : list byte) (sampleRate channels bitsPerSample : Z)
  : list byte :=
  binary_Write
    {| ChunkID := RIFF;
       ChunkSize := uint32 (36 + Z.of_nat (length data));
       Format := WAVE;
       Subchunk1ID := fmt_;
       Subchunk1Size := uint32 16;
       AudioFormat := uint16 1;
       NumChannels := uint16 channels;
       SampleRate := uint32 sampleRate;
       BytesPerSec := uint32 (sampleRate * channels * Z.quot bitsPerSample 8);
       BlockAlign := uint16 (channels * Z.quot bitsPerSample 8);
       BitsPerSample := uint16 bitsPerSample;
       Subchunk2ID := data_;
       Subchunk2Size := uint32 (Z.of_nat (length data)) |} ++ data.

(** The 16-bit header field at byte offset [off] of a container. *)
Definition field16 (off : nat) (data : list byte) : option Z :=
  match drop off data with
  | b0 :: b1 :: _ => Some (Uint16 b0 b1)
  | _ => None
  end.

(** The signed 16-bit little-endian value of a pair of bytes. *)
Definition sample_value (b0 b1 : byte) : Z :=
  let u := Z_of_byte b0 + 256 * Z_of_byte b1 in
  if u <? 32768 then u else u - 65536.

(** [f] is finite and its value is exactly the rational [q]. *)
Definition exactly (f : float) (q : Q) : Prop :=
  exists q', float_value f = Some q' /\ (q' == q)%Q.

(** Every byte is one of the 256 listed here. *)
Definition all_bytes : list byte := byte_of_Z <$> seqZ 0 256.

(** The check made on each of the 65536 pairs: the quotient is exact
    and within the bounds. *)
Definition sample_check (b0 b1 : byte) : bool :=
  match float_value (sample_of b0 b1) with
  | Some q =>
      Qeq_bool q (sample_value b0 b1 # 32768)
      && Qle_bool (-1) q && Qle_bool q (32767 # 32768)
      && PrimFloat.leb (-1)%float (sample_of b0 b1)
      && PrimFloat.leb (sample_of b0 b1) (0x1.fffcp-1)%float
  | None => false
  end.

(** The document [RegisterSong] inserts. *)
Definition song_doc (songID : Z) (key ytID : string) : Document :=
  [("_id"%string, BInt64 songID); ("key"%string, BString key);
   ("ytID"%string, BString ytID)].

(** A record with this externalRef and this identity key. *)
Definition has_pair (ytID key : string) (d : Document) : Prop :=
  doc_get d "ytID" = Some (BString ytID) /\ doc_get d "key" = Some (BString key).

(** No record of the collection has this songID. *)
Definition id_free (c : list Document) (songID : Z) : Prop :=
  forall d, d ∈ c -> matches "_id" (BInt64 songID) d = false.

(** The document stored for an address, if any. *)
Definition find_bucket (c : list Document) (address : Z) : option Document :=
  FindOne c "_id" (BInt64 address).

Definition couples_of (d : Document) : list Bson :=
  match doc_get d "couples" with
  | Some (BArray items) => items
  | _ => []
  end.

(** The entries of the bucket of an address; none without a document. *)
Definition old_items (c : list Document) (address : Z) : list Bson :=
  match find_bucket c address with
  | Some d => couples_of d
  | None => []
  end.

(** The server accepts a push at this address: there is no document,
    or its field "couples" is missing or an array. *)
Definition accepts (c : list Document) (address : Z) : Prop :=
  match find_bucket c address with
  | Some d =>
      match doc_get d "couples" with
      | Some (BArray _) | None => True
      | Some _ => False
      end
  | None => True
  end.

(** The bucket of the address, read as [GetCouples] reads it, holds the
    couples [old]; without a document, none. *)
Definition holds (c : list Document) (address : Z) (old : list Couple) : Prop :=
  match find_bucket c address with
  | Some d =>
      exists items, doc_get d "couples" = Some (BArray items)
                    /\ couples_loop address items [] = Ok old
  | None => old = []
  end.

(** The number of couples a result of [GetCouples] has for an address. *)
Definition bucket_length (address : Z)
    (r : outcome error (gmap Z (list Couple))) : option nat :=
  match r with
  | Ok couples => length <$> couples !! address
  | _ => None
  end.

(** An entry of a bucket as [StoreFingerprints] writes it. *)
Definition couple_entry (item : Bson) : Prop :=
  exists a s, item = BDoc [("anchorTimeMs"%string, BInt64 a);
                           ("songID"%string, BInt64 s)].

(** An index in which every document has an array "couples" of such
    entries: what calls of [StoreFingerprints] build from nothing. *)
Definition index_wf (c : list Document) : Prop :=
  Forall (fun d => exists items,
                     doc_get d "couples" = Some (BArray items)
                     /\ Forall couple_entry items) c.

(** The couples [GetCouples] reads from the bucket of an address. *)
Definition bucket_couples (c : list Document) (address : Z)
  : option (list Couple) :=
  match find_bucket c address with
  | Some d =>
      match doc_get d "couples" with
      | Some (BArray items) =>
          match couples_loop address items [] with
          | Ok docCouples => Some docCouples
          | _ => None
          end
      | _ => None
      end
  | None => None
  end.

(** The document found for an address after the couples of the map
    [fp] have been pushed, one per address. *)
Definition pushed (fp : gmap Z Couple) (c : list Document) (address : Z)
  : option Document :=
  match fp !! address with
  | Some couple =>
      match find_bucket c address with
      | Some d => push_couples d (couple_doc couple)
      | None => Some [("_id"%string, BInt64 address);
                      ("couples"%string, BArray [couple_doc couple])]
      end
  | None => find_bucket c address
  end.

(** A collection of songs as calls of [RegisterSong] build it. *)
Definition registry_wf (c : list Document) : Prop :=
  Forall (fun d => exists songID title artist ytID,
                     d = song_doc songID (GenerateSongKey title artist) ytID) c.

(** No two documents of the collection have the same [_id]. *)
Fixpoint unique_ids (c : list Document) : bool :=
  match c with
  | [] => true
  | d :: c' =>
      forallb (fun d' => negb (field_eqb (doc_get d "_id") (doc_get d' "_id")))
              c'
      && unique_ids c'
  end.

(** The header [binary.Read] finds at the start of a file. *)
Definition header_of (data : list byte) : option WavHeader :=
  fst <$> binary_Read (take 44 data).

(** Splitting on the first occurrence of the separator, as the
    specification words the recovery of title and artist: what is
    before the occurrence and what is after it. *)
Definition cut_first (s sep : string) : option (string * string) :=
  match Index s sep with
  | Some i => Some (take_str i s, drop_str (i + String.length sep) s)
  | None => None
  end.

(** The entry of a bucket read as a couple: both fields are 64-bit
    integers, converted to [uint32]. *)
Definition entry_couple (item : Bson) : option Couple :=
  match item with
  | BDoc itemMap =>
      match doc_get itemMap "anchorTimeMs", doc_get itemMap "songID" with
      | Some (BInt64 a), Some (BInt64 s) =>
          Some {| AnchorTimeMs := uint32 a; SongID := uint32 s |}
      | _, _ => None
      end
  | _ => None
  end.

(** The 32-bit header field at byte offset [off] of a container. *)
Definition field32 (off : nat) (data : list byte) : option Z :=
  match drop off data with
  | b0 :: b1 :: b2 :: b3 :: _ => Some (Uint32 b0 b1 b2 b3)
  | _ => None
  end.

(** * Properties *)

(** ** Bytes and little-endian fields *)

Lemma Z_of_byte_range (b : byte) : 0 <= Z_of_byte b < 256.
Proof.
  unfold Z_of_byte. pose proof (Byte.to_N_bounded b) as Hb. lia.
Qed.

Lemma Z_of_byte_of_Z (x : Z) : Z_of_byte (byte_of_Z x) = x mod 256.
Proof.
  unfold Z_of_byte, byte_of_Z.
  assert (0 <= x mod 256 < 256) as Hr by (apply Z.mod_pos_bound; lia).
  destruct (Byte.of_N (Z.to_N (x mod 256))) as [b|] eqn:E.
  - apply Byte.to_of_N in E. rewrite E. lia.
  - apply Byte.of_N_None_iff in E. lia.
Qed.

Lemma byte_of_Z_of_byte (b : byte) : byte_of_Z (Z_of_byte b) = b.
Proof.
  unfold byte_of_Z. pose proof (Z_of_byte_range b) as Hr.
  rewrite Z.mod_small by lia. unfold Z_of_byte. rewrite N2Z.id.
  by rewrite Byte.of_to_N.
Qed.

(** Below [2^k] and shifted by [k] do not overlap: [lor] is a sum. *)
Lemma lor_shiftl_add (a b k : Z) :
  0 <= k -> 0 <= a < 2 ^ k -> Z.lor a (Z.shiftl b k) = a + b * 2 ^ k.
Proof.
  intros Hk Ha. rewrite <- Z.shiftl_mul_pow2 by lia.
  symmetry. apply Z.add_nocarry_lor.
  apply Z.bits_inj'. intros n Hn.
  rewrite Z.land_spec, Z.bits_0.
  destruct (Z.lt_ge_cases n k) as [Hlt|Hge].
  - rewrite (Z.shiftl_spec_low b k n) by lia. apply andb_false_r.
  - destruct (Z.eq_dec a 0) as [->|Hne].
    + by rewrite Z.bits_0.
    + rewrite (Z.bits_above_log2 a n); [done | lia |].
      apply Z.log2_lt_pow2; [lia |].
      apply Z.lt_le_trans with (2 ^ k); [lia |].
      apply Z.pow_le_mono_r; lia.
Qed.

Lemma Uint16_sum (b0 b1 : byte) :
  Uint16 b0 b1 = Z_of_byte b0 + Z_of_byte b1 * 2 ^ 8.
Proof.
  unfold Uint16. pose proof (Z_of_byte_range b0).
  apply lor_shiftl_add; lia.
Qed.

Lemma Uint32_sum (b0 b1 b2 b3 : byte) :
  Uint32 b0 b1 b2 b3 =
  Z_of_byte b0 + Z_of_byte b1 * 2 ^ 8 + Z_of_byte b2 * 2 ^ 16
  + Z_of_byte b3 * 2 ^ 24.
Proof.
  unfold Uint32.
  pose proof (Z_of_byte_range b0). pose proof (Z_of_byte_range b1).
  pose proof (Z_of_byte_range b2).
  rewrite (lor_shiftl_add (Z_of_byte b0)) by lia.
  rewrite (lor_shiftl_add (_ + _) _ 16) by lia.
  rewrite lor_shiftl_add by lia. lia.
Qed.

Lemma Uint16_PutUint16 (v : Z) :
  Uint16 (byte_of_Z v) (byte_of_Z (Z.shiftr v 8)) = uint16 v.
Proof.
  rewrite Uint16_sum, !Z_of_byte_of_Z, Z.shiftr_div_pow2 by lia.
  unfold uint16. change (2 ^ 8) with 256. change (2 ^ 16) with 65536.
  Z.div_mod_to_equations. lia.
Qed.

Lemma Uint32_PutUint32 (v : Z) :
  Uint32 (byte_of_Z v) (byte_of_Z (Z.shiftr v 8))
         (byte_of_Z (Z.shiftr v 16)) (byte_of_Z (Z.shiftr v 24)) = uint32 v.
Proof.
  rewrite Uint32_sum, !Z_of_byte_of_Z, !Z.shiftr_div_pow2 by lia.
  unfold uint32.
  change (2 ^ 8) with 256. change (2 ^ 16) with 65536.
  change (2 ^ 24) with 16777216. change (2 ^ 32) with 4294967296.
  Z.div_mod_to_equations. lia.
Qed.

(** ** The container codec *)

Section WavCodec.

Lemma length_binary_Write (h : WavHeader) :
  length (ChunkID h) = 4%nat -> length (Format h) = 4%nat ->
  length (Subchunk1ID h) = 4%nat -> length (Subchunk2ID h) = 4%nat ->
  length (binary_Write h) = 44%nat.
Proof.
  intros H1 H2 H3 H4. unfold binary_Write, PutUint32, PutUint16.
  rewrite !length_app, !length_take, H1, H2, H3, H4. reflexivity.
Qed.

(** Reading back what [binary.Write] wrote gives every field at the
    width of its type. *)
Lemma binary_Read_Write (h : WavHeader) (rest : list byte) :
  length (ChunkID h) = 4%nat -> length (Format h) = 4%nat ->
  length (Subchunk1ID h) = 4%nat -> length (Subchunk2ID h) = 4%nat ->
  binary_Read (binary_Write h ++ rest) =
  Some ({| ChunkID := ChunkID h;
           ChunkSize := uint32 (ChunkSize h);
           Format := Format h;
           Subchunk1ID := Subchunk1ID h;
           Subchunk1Size := uint32 (Subchunk1Size h);
           AudioFormat := uint16 (AudioFormat h);
           NumChannels := uint16 (NumChannels h);
           SampleRate := uint32 (SampleRate h);
           BytesPerSec := uint32 (BytesPerSec h);
           BlockAlign := uint16 (BlockAlign h);
           BitsPerSample := uint16 (BitsPerSample h);
           Subchunk2ID := Subchunk2ID h;
           Subchunk2Size := uint32 (Subchunk2Size h) |}, rest).
Proof.
  destruct h as [t1 v1 t2 t3 v2 v3 v4 v5 v6 v7 v8 t4 v9].
  cbn [ChunkID Format Subchunk1ID Subchunk2ID].
  intros H1 H2 H3 H4.
  destruct t1 as [|? [|? [|? [|? [|]]]]]; try discriminate H1.
  destruct t2 as [|? [|? [|? [|? [|]]]]]; try discriminate H2.
  destruct t3 as [|? [|? [|? [|? [|]]]]]; try discriminate H3.
  destruct t4 as [|? [|? [|? [|? [|]]]]]; try discriminate H4.
  unfold binary_Write, binary_Read, rbind, rret, read_tag, read_u16,
    read_u32, PutUint16, PutUint32.
  cbn [app firstn ChunkID ChunkSize Format Subchunk1ID Subchunk1Size
       AudioFormat NumChannels SampleRate BytesPerSec BlockAlign
       BitsPerSample Subchunk2ID Subchunk2Size].
  by rewrite !Uint32_PutUint32, !Uint16_PutUint16.
Qed.

Lemma WriteWavFile_ok fs filename data sampleRate channels bitsPerSample :
  filename ∉ fs_denied fs ->
  0 < sampleRate -> 0 < channels -> 0 < bitsPerSample ->
  Z.rem (Z.of_nat (length data)) channels = 0 ->
  exists fs',
    WriteWavFile fs filename data sampleRate channels bitsPerSample
    = (fs', Ok tt)
    /\ fs_files fs' !! filename
       = Some (wav_image data sampleRate channels bitsPerSample).
Proof.
  intros Hfree Hs Hc Hb Hdiv.
  unfold WriteWavFile, os_Create. rewrite decide_False by done.
  replace (sampleRate <=? 0) with false by lia.
  replace (channels <=? 0) with false by lia.
  replace (bitsPerSample <=? 0) with false by lia.
  cbn [orb]. unfold writeWavHeader.
  replace (channels =? 0) with false by lia.
  rewrite Hdiv. cbn [Z.eqb negb].
  eexists. split; [reflexivity |].
  unfold file_Write. cbn [fs_files].
  rewrite lookup_insert_eq. f_equal.
  rewrite lookup_insert_eq. cbn [default].
  rewrite lookup_insert_eq. reflexivity.
Qed.

(** With invalid parameters the call fails, but only after [os.Create]:
    the named file exists afterwards and is empty, whatever it held. *)
Lemma WriteWavFile_invalid fs filename data sampleRate channels bitsPerSample :
  filename ∉ fs_denied fs ->
  sampleRate <= 0 \/ channels <= 0 \/ bitsPerSample <= 0
  \/ Z.rem (Z.of_nat (length data)) channels <> 0 ->
  exists fs' e,
    WriteWavFile fs filename data sampleRate channels bitsPerSample
    = (fs', Err e)
    /\ (e = ErrNotPositive sampleRate channels bitsPerSample
        \/ e = ErrNotDivisible)
    /\ fs_files fs' !! filename = Some [].
Proof.
  intros Hfree Hbad.
  unfold WriteWavFile, os_Create. rewrite decide_False by done.
  destruct ((sampleRate <=? 0) || (channels <=? 0) || (bitsPerSample <=? 0))
    eqn:Hpos.
  - eexists _, _. split; [reflexivity |]. split; [by left |].
    cbn [fs_files]. apply lookup_insert_eq.
  - apply orb_false_elim in Hpos as [Hpos Hb].
    apply orb_false_elim in Hpos as [Hs Hc].
    unfold writeWavHeader. replace (channels =? 0) with false by lia.
    destruct (Z.rem (Z.of_nat (length data)) channels =? 0) eqn:Hdiv.
    + exfalso. apply Z.eqb_eq in Hdiv. lia.
    + cbn [negb]. eexists _, _. split; [reflexivity |]. split; [by right |].
      cbn [fs_files]. apply lookup_insert_eq.
Qed.

Lemma ReadWavInfo_image fs filename data sampleRate channels :
  fs_files fs !! filename = Some (wav_image data sampleRate channels 16) ->
  exists info,
    ReadWavInfo fs filename = Ok info
    /\ Channels info = uint16 channels
    /\ SampleRate' info = uint32 sampleRate
    /\ Data info = data.
Proof.
  intros Hfile. unfold ReadWavInfo, ReadFile. rewrite Hfile.
  unfold wav_image.
  match goal with |- context [binary_Write ?h ++ data] => set (hd := h) end.
  assert (length (binary_Write hd) = 44%nat) as Hlen
    by (by apply length_binary_Write).
  rewrite length_app, Hlen.
  rewrite (proj2 (Z.ltb_ge _ _)) by lia.
  rewrite take_app_length' by done.
  replace (binary_Read (binary_Write hd))
    with (binary_Read (binary_Write hd ++ [])) by (by rewrite app_nil_r).
  rewrite binary_Read_Write by done.
  rewrite drop_app_length' by done.
  cbn [ChunkID Format AudioFormat BitsPerSample NumChannels SampleRate hd].
  change (uint16 (uint16 1) =? 1) with true.
  change (uint16 (uint16 16) =? 16) with true.
  rewrite !bool_decide_eq_true_2 by done. cbn [negb orb].
  eexists. split; [reflexivity |]. cbn [Channels SampleRate' Data].
  unfold uint16, uint32. by rewrite !Z.mod_mod by lia.
Qed.

(** C1, as amended: a payload whose length is divisible by channelCount,
    with 0 < channelCount < 2^16, 0 < sampleRateHz < 2^32 and
    bitsPerSample = 16, is encoded by [WriteWavFile], and [ReadWavInfo]
    of the written file gives back the same channelCount, the same
    sampleRateHz and the payload byte for byte. *)
Theorem wav_roundtrip fs filename data sampleRate channels :
  filename ∉ fs_denied fs ->
  0 < channels < 2 ^ 16 -> 0 < sampleRate < 2 ^ 32 ->
  Z.rem (Z.of_nat (length data)) channels = 0 ->
  exists fs' info,
    WriteWavFile fs filename data sampleRate channels 16 = (fs', Ok tt)
    /\ ReadWavInfo fs' filename = Ok info
    /\ Channels info = channels
    /\ SampleRate' info = sampleRate
    /\ Data info = data.
Proof.
  intros Hfree Hc Hs Hdiv.
  destruct (WriteWavFile_ok fs filename data sampleRate channels 16)
    as (fs' & Hw & Hfile); [done | lia | lia | lia | done |].
  destruct (ReadWavInfo_image fs' filename data sampleRate channels Hfile)
    as (info & Hr & Hch & Hsr & Hd).
  exists fs', info. repeat split; try done.
  - rewrite Hch. unfold uint16. apply Z.mod_small. lia.
  - rewrite Hsr. unfold uint32. apply Z.mod_small. lia.
Qed.

Lemma wav_roundtrip_witness :
  exists fs' info,
    WriteWavFile (mkFS ∅ ∅) "a.wav" [x01; x02; x03; x04] 44100 2 16
    = (fs', Ok tt)
    /\ ReadWavInfo fs' "a.wav" = Ok info
    /\ Channels info = 2
    /\ SampleRate' info = 44100
    /\ Data info = [x01; x02; x03; x04].
Proof.
  apply wav_roundtrip; [set_solver | lia | lia | reflexivity].
Defined.

(** C1 as stated fails: with channelCount = 65536 (and an empty payload,
    whose length any channelCount divides) the encoder succeeds, and the
    decoder reports 0 channels, the low 16 bits of 65536. *)
Lemma wav_roundtrip_wide_channels :
  let w := WriteWavFile (mkFS ∅ ∅) "a.wav" [] 44100 65536 16 in
  Z.rem (Z.of_nat (length (@nil byte))) 65536 = 0
  /\ snd w = Ok tt
  /\ exists info,
       ReadWavInfo (fst w) "a.wav" = Ok info
       /\ Channels info = 0
       /\ Channels info <> 65536.
Proof.
  cbv zeta. split; [reflexivity |]. split; [reflexivity |].
  eexists. split; [vm_compute; reflexivity |]. split; [reflexivity | done].
Qed.

(** C5, as amended: an input of at least 44 bytes that starts with the
    magic "RIFF", carries the format tag "WAVE" at offset 8, format code
    1 at offset 20 and bitsPerSample 16 at offset 34 is decoded, and the
    rawSampleBytes returned are the input from byte 44 on. *)
Theorem ReadWavInfo_data fs filename data :
  fs_files fs !! filename = Some data ->
  (44 <= length data)%nat ->
  take 4 data = RIFF ->
  take 4 (drop 8 data) = WAVE ->
  field16 20 data = Some 1 ->
  field16 34 data = Some 16 ->
  exists info, ReadWavInfo fs filename = Ok info /\ Data info = drop 44 data.
Proof.
  intros Hfile Hlen Hriff Hwave Hfmt Hbits.
  unfold ReadWavInfo, ReadFile. rewrite Hfile.
  rewrite (proj2 (Z.ltb_ge _ _)) by lia.
  do 44 (destruct data as [|? data]; [cbn in Hlen; lia |]).
  cbv [take firstn drop skipn field16] in Hriff, Hwave, Hfmt, Hbits.
  cbv [binary_Read rbind rret read_tag read_u16 read_u32 take firstn].
  cbn [ChunkID Format AudioFormat BitsPerSample NumChannels SampleRate].
  injection Hfmt as ->. injection Hbits as ->.
  rewrite Hriff, Hwave.
  rewrite !bool_decide_eq_true_2 by done. cbn [negb orb Z.eqb Pos.eqb].
  eexists. split; reflexivity.
Qed.

Lemma ReadWavInfo_data_witness :
  exists info,
    ReadWavInfo (mkFS {["a.wav"%string := wav_image [x07; x08] 8000 1 16]} ∅)
                "a.wav" = Ok info
    /\ Data info = drop 44 (wav_image [x07; x08] 8000 1 16).
Proof.
  apply ReadWavInfo_data;
    [vm_compute; reflexivity | vm_compute; lia | reflexivity ..].
Defined.

(** C5 as stated fails: a well-formed header with format code 1 and
    bitsPerSample 8 is refused. *)
Lemma ReadWavInfo_refuses_8_bits :
  let data := wav_image [x07; x08] 8000 1 8 in
  (44 <= length data)%nat
  /\ take 4 data = RIFF
  /\ take 4 (drop 8 data) = WAVE
  /\ field16 20 data = Some 1
  /\ field16 34 data = Some 8
  /\ ReadWavInfo (mkFS {["a.wav"%string := data]} ∅) "a.wav"
     = Err ErrUnsupportedBits.
Proof.
  cbv zeta. split; [vm_compute; lia |]. repeat split; vm_compute; reflexivity.
Qed.

(** C9, the code at a failing input: [WriteWavFile] with sampleRate 0 on
    an existing file returns the error, and the file has been truncated
    to zero bytes; with a payload length that channels does not divide,
    a file that did not exist has been created. *)
Theorem WriteWavFile_creates_before_checking :
  (let fs := mkFS {["out.wav"%string := [x01; x02]]} ∅ in
   let w := WriteWavFile fs "out.wav" [x07; x08] 0 1 16 in
   snd w = Err (ErrNotPositive 0 1 16)
   /\ fs_files (fst w) !! "out.wav"%string = Some []
   /\ fs_files fs !! "out.wav"%string = Some [x01; x02])
  /\ (let fs := mkFS ∅ ∅ in
      let w := WriteWavFile fs "out.wav" [x07; x08; x09] 8000 2 16 in
      snd w = Err ErrNotDivisible
      /\ fs_files (fst w) !! "out.wav"%string = Some []
      /\ fs_files fs !! "out.wav"%string = None).
Proof.
  cbv zeta. repeat split; vm_compute; reflexivity.
Qed.

End WavCodec.

(** ** Samples *)

Section WavSamples.

Lemma int16_Uint16 (b0 b1 : byte) : int16 (Uint16 b0 b1) = sample_value b0 b1.
Proof.
  unfold int16, sample_value. rewrite Uint16_sum.
  change (2 ^ 8) with 256. change (2 ^ 15) with 32768.
  change (2 ^ 16) with 65536.
  replace (Z_of_byte b0 + Z_of_byte b1 * 256)
    with (Z_of_byte b0 + 256 * Z_of_byte b1) by lia.
  reflexivity.
Qed.

Lemma elem_of_all_bytes (b : byte) : b ∈ all_bytes.
Proof.
  unfold all_bytes. apply list_elem_of_fmap. exists (Z_of_byte b). split.
  - symmetry. apply byte_of_Z_of_byte.
  - apply elem_of_seqZ. pose proof (Z_of_byte_range b). lia.
Qed.

Lemma sample_check_all :
  forallb (fun b0 => forallb (sample_check b0) all_bytes) all_bytes = true.
Proof. vm_compute. reflexivity. Qed.

Lemma sample_check_true (b0 b1 : byte) : sample_check b0 b1 = true.
Proof.
  pose proof sample_check_all as Hall.
  rewrite forallb_forall in Hall.
  specialize (Hall b0 (proj1 (list_elem_of_In _ _) (elem_of_all_bytes b0))).
  rewrite forallb_forall in Hall.
  apply Hall, list_elem_of_In, elem_of_all_bytes.
Qed.

Lemma sample_of_exact (b0 b1 : byte) :
  exactly (sample_of b0 b1) (sample_value b0 b1 # 32768).
Proof.
  pose proof (sample_check_true b0 b1) as Hc. unfold sample_check in Hc.
  unfold exactly.
  destruct (float_value (sample_of b0 b1)) as [q|]; [| discriminate].
  repeat (apply andb_prop in Hc as [Hc ?]).
  exists q. split; [reflexivity |]. by apply Qeq_bool_iff.
Qed.

Lemma sample_of_bounds (b0 b1 : byte) :
  exists q, float_value (sample_of b0 b1) = Some q
            /\ (-1 <= q)%Q /\ (q <= 32767 # 32768)%Q.
Proof.
  pose proof (sample_check_true b0 b1) as Hc. unfold sample_check in Hc.
  destruct (float_value (sample_of b0 b1)) as [q|]; [| discriminate].
  repeat (apply andb_prop in Hc as [Hc ?]).
  exists q. split; [reflexivity |]. split; by apply Qle_bool_iff.
Qed.

(** Induction over a list two elements at a time, as the loop walks it. *)
Lemma pair_ind {A} (P : list A -> Prop) :
  P [] -> (forall x, P [x]) -> (forall x y l, P l -> P (x :: y :: l)) ->
  forall l, P l.
Proof.
  intros Hnil Hone Hstep l.
  assert (P l /\ forall x, P (x :: l)) as [H _]; [| exact H].
  induction l as [|y l [IH1 IH2]]; split; auto.
Qed.

Lemma length_samples_loop (input : list byte) :
  length (samples_loop input) = (length input / 2)%nat.
Proof.
  rewrite <- Nat.div2_div.
  induction input as [| |b0 b1 rest IH] using pair_ind; [done | done |].
  cbn [samples_loop length Nat.div2]. by rewrite IH.
Qed.

Lemma samples_loop_lookup (input : list byte) (i : nat) (b0 b1 : byte) :
  input !! (2 * i)%nat = Some b0 -> input !! (2 * i + 1)%nat = Some b1 ->
  samples_loop input !! i = Some (sample_of b0 b1).
Proof.
  revert i. induction input as [| |c0 c1 rest IH] using pair_ind;
    intros i H0 H1.
  - by rewrite lookup_nil in H0.
  - destruct i; [discriminate H1 |].
    replace (2 * S i + 1)%nat with (S (S (2 * i + 1))) in H1 by lia.
    discriminate H1.
  - destruct i as [|i].
    + cbn in H0, H1. by injection H0 as ->; injection H1 as ->.
    + replace (2 * S i)%nat with (S (S (2 * i))) in H0 by lia.
      replace (2 * S i + 1)%nat with (S (S (2 * i + 1))) in H1 by lia.
      cbn [samples_loop]. rewrite lookup_cons_ne_0 by done. cbn [pred].
      by apply IH.
Qed.

Lemma samples_loop_Forall (P : float -> Prop) (input : list byte) :
  (forall b0 b1, P (sample_of b0 b1)) -> Forall P (samples_loop input).
Proof.
  intros HP. induction input as [| |b0 b1 rest IH] using pair_ind;
    cbn [samples_loop]; auto.
Qed.

Lemma WavBytesToSamples_even (input : list byte) :
  Nat.Even (length input) -> WavBytesToSamples input = Ok (samples_loop input).
Proof.
  intros [k Hk]. unfold WavBytesToSamples. rewrite Hk.
  replace (Z.rem (Z.of_nat (2 * k)) 2) with 0; [done |].
  rewrite Z.rem_mod_nonneg by lia.
  rewrite Nat2Z.inj_mul, Z.mul_comm. by rewrite Z.mod_mul.
Qed.

Lemma WavBytesToSamples_odd (input : list byte) :
  Nat.Odd (length input) -> WavBytesToSamples input = Err ErrInputLength.
Proof.
  intros [k Hk]. unfold WavBytesToSamples. rewrite Hk.
  replace (Z.rem (Z.of_nat (2 * k + 1)) 2) with 1; [done |].
  rewrite Z.rem_mod_nonneg by lia.
  replace (Z.of_nat (2 * k + 1)) with (1 + Z.of_nat k * 2) by lia.
  by rewrite Z.mod_add.
Qed.

(** C6: each pair of bytes, read as a signed 16-bit little-endian sample
    s, becomes the float whose value is exactly s / 32768; the pair
    0x00,0x80 becomes -1.0, the pair 0xFF,0x7F becomes 32767/32768; and
    an input of odd length fails with the error "invalid input length". *)
Theorem WavBytesToSamples_scaling :
  (forall b0 b1, exactly (sample_of b0 b1) (sample_value b0 b1 # 32768))
  /\ (forall input, Nat.Even (length input) ->
        exists output,
          WavBytesToSamples input = Ok output
          /\ forall i b0 b1,
               input !! (2 * i)%nat = Some b0 ->
               input !! (2 * i + 1)%nat = Some b1 ->
               output !! i = Some (sample_of b0 b1))
  /\ WavBytesToSamples [x00; x80] = Ok [(-1)%float]
  /\ (exists f, WavBytesToSamples [xff; x7f] = Ok [f]
                /\ exactly f (32767 # 32768))
  /\ (forall input, Nat.Odd (length input) ->
        WavBytesToSamples input = Err ErrInputLength)
  /\ WavBytesToSamples [x2a] = Err ErrInputLength.
Proof.
  split; [exact sample_of_exact |].
  split.
  { intros input Heven. exists (samples_loop input).
    split; [by apply WavBytesToSamples_even |].
    intros i b0 b1. apply samples_loop_lookup. }
  split; [vm_compute; reflexivity |].
  split.
  { exists (sample_of xff x7f). split; [vm_compute; reflexivity |].
    apply (sample_of_exact xff x7f). }
  split; [exact WavBytesToSamples_odd | reflexivity].
Qed.

Lemma WavBytesToSamples_scaling_witness :
  (exists output,
     WavBytesToSamples [x34; x12; x00; x80] = Ok output
     /\ forall i b0 b1,
          [x34; x12; x00; x80] !! (2 * i)%nat = Some b0 ->
          [x34; x12; x00; x80] !! (2 * i + 1)%nat = Some b1 ->
          output !! i = Some (sample_of b0 b1))
  /\ WavBytesToSamples [x34; x12; x00] = Err ErrInputLength.
Proof.
  split.
  - apply (proj1 (proj2 WavBytesToSamples_scaling)). by exists 2%nat.
  - apply (proj1 (proj2 (proj2 (proj2 (proj2 WavBytesToSamples_scaling))))).
    by exists 1%nat.
Defined.

(** C10: an input of even length gives exactly len(input)/2 samples, and
    every one of them has a value in the closed interval
    [-1, 32767/32768]. *)
Theorem WavBytesToSamples_bounds (input : list byte) :
  Nat.Even (length input) ->
  exists output,
    WavBytesToSamples input = Ok output
    /\ length output = (length input / 2)%nat
    /\ Forall (fun x =>
                 (exists q, float_value x = Some q
                            /\ (-1 <= q)%Q /\ (q <= 32767 # 32768)%Q)
                 /\ PrimFloat.leb (-1)%float x = true
                 /\ PrimFloat.leb x (0x1.fffcp-1)%float = true) output.
Proof.
  intros Heven. exists (samples_loop input).
  split; [by apply WavBytesToSamples_even |].
  split; [apply length_samples_loop |].
  apply samples_loop_Forall. intros b0 b1.
  split; [apply sample_of_bounds |].
  pose proof (sample_check_true b0 b1) as Hc. unfold sample_check in Hc.
  destruct (float_value (sample_of b0 b1)); [| discriminate].
  repeat (apply andb_prop in Hc as [Hc ?]). done.
Qed.

Lemma WavBytesToSamples_bounds_witness :
  exists output,
    WavBytesToSamples [x00; x80; xff; x7f] = Ok output
    /\ length output = (length [x00; x80; xff; x7f] / 2)%nat
    /\ Forall (fun x =>
                 (exists q, float_value x = Some q
                            /\ (-1 <= q)%Q /\ (q <= 32767 # 32768)%Q)
                 /\ PrimFloat.leb (-1)%float x = true
                 /\ PrimFloat.leb x (0x1.fffcp-1)%float = true) output.
Proof.
  apply WavBytesToSamples_bounds. by exists 2%nat.
Defined.

End WavSamples.

(** ** Strings *)

Lemma take_str_app (s t : string) :
  take_str (String.length s) (String.append s t) = s.
Proof. induction s as [|c s IH]; simpl; [by destruct t | by f_equal]. Qed.

Lemma drop_str_app (s t : string) :
  drop_str (String.length s) (String.append s t) = t.
Proof. induction s as [|c s IH]; simpl; [by destruct t | done]. Qed.

Lemma drop_str_add (n m : nat) (s : string) :
  drop_str (n + m) s = drop_str m (drop_str n s).
Proof.
  revert s. induction n as [|n IH]; intros s; [done |].
  destruct s; simpl; [by destruct m | apply IH].
Qed.

(** A key with exactly one separator, the one put between title and
    artist, splits into title and artist. *)
Lemma Split_key (title artist : string) :
  Index (Db.GenerateSongKey title artist) "---" = Some (String.length title) ->
  Index artist "---" = None ->
  Split (Db.GenerateSongKey title artist) "---" = [title; artist].
Proof.
  intros Hfirst Hnone.
  assert (drop_str (String.length title + String.length "---")
            (Db.GenerateSongKey title artist) = artist) as Hrest.
  { unfold Db.GenerateSongKey. by rewrite drop_str_add, drop_str_app. }
  assert (forall fuel, Count_loop fuel artist "---" = 0%nat) as Hzero.
  { intros [|fuel]; cbn [Count_loop]; [done | by rewrite Hnone]. }
  assert (Count (Db.GenerateSongKey title artist) "---" = 1%nat) as Hcount.
  { unfold Count.
    destruct (String.length (Db.GenerateSongKey title artist)) as [|fuel] eqn:El.
    - exfalso. unfold Db.GenerateSongKey in El.
      destruct title; simpl in El; discriminate El.
    - cbn [Count_loop]. by rewrite Hfirst, Hrest, Hzero. }
  unfold Split. rewrite Hcount. cbn [genSplit].
  rewrite Hfirst, Hrest. f_equal.
  unfold Db.GenerateSongKey. apply take_str_app.
Qed.

(** ** The song registry *)

Section SongRegistry.
Context {srv : Server}.

(** Unfolding a lookup with a number or a string as its value. *)
Ltac unfold_GetSong :=
  unfold GetSongByID, GetSongByYTID, GetSongByKey, GetSong, selects;
  repeat match goal with
         | |- context [find (matches ?k ?v) ?c] =>
             change (find (matches k v) c) with (FindOne c k v)
         end.

Lemma bson_eqb_string (v : Bson) (s : string) :
  bson_eqb v (BString s) = true <-> v = BString s.
Proof.
  destruct v; cbn; try (split; [discriminate | discriminate]).
  rewrite String.eqb_eq. split; [by intros -> | by intros [= ->]].
Qed.

Lemma field_eqb_id (d : Document) (songID : Z) :
  field_eqb (doc_get d "_id") (Some (BInt64 songID))
  = matches "_id" (BInt64 songID) d.
Proof. unfold matches, field_eqb. by destruct (doc_get d "_id"). Qed.

Lemma index_key_eqb_pair (d : Document) (songID : Z) (key ytID : string) :
  index_key_eqb (index_key d) (index_key (song_doc songID key ytID)) = true
  <-> has_pair ytID key d.
Proof.
  unfold index_key_eqb, index_key, has_pair, song_doc. cbn [fst snd].
  change (doc_get [("_id"%string, BInt64 songID); ("key"%string, BString key);
                   ("ytID"%string, BString ytID)] "ytID")
    with (Some (BString ytID)).
  change (doc_get [("_id"%string, BInt64 songID); ("key"%string, BString key);
                   ("ytID"%string, BString ytID)] "key")
    with (Some (BString key)).
  rewrite andb_true_iff.
  destruct (doc_get d "ytID") as [y|], (doc_get d "key") as [k|]; cbn [field_eqb];
    rewrite ?bson_eqb_string; split; intros [H1 H2];
    try discriminate; try (by split; congruence).
Qed.

Lemma existsb_pair (c : list Document) (songID : Z) (key ytID : string) :
  existsb (fun d => index_key_eqb (index_key d)
                      (index_key (song_doc songID key ytID))) c = true
  <-> exists d, d ∈ c /\ has_pair ytID key d.
Proof.
  rewrite existsb_exists. split.
  - intros (d & Hin & Hd). exists d. split; [by apply list_elem_of_In |].
    by apply index_key_eqb_pair in Hd.
  - intros (d & Hin & Hd). exists d. split; [by apply list_elem_of_In |].
    by apply index_key_eqb_pair.
Qed.

Lemma existsb_id (c : list Document) (songID : Z) (key ytID : string) :
  existsb (fun d => field_eqb (doc_get d "_id")
                      (doc_get (song_doc songID key ytID) "_id")) c = false
  <-> id_free c songID.
Proof.
  change (doc_get (song_doc songID key ytID) "_id")
    with (Some (BInt64 songID)).
  unfold id_free. split.
  - intros Hex d Hin. rewrite <- field_eqb_id.
    destruct (field_eqb (doc_get d "_id") (Some (BInt64 songID))) eqn:E; [| done].
    assert (existsb (fun d => field_eqb (doc_get d "_id") (Some (BInt64 songID)))
              c = true) as Ht; [| congruence].
    apply existsb_exists. exists d. split; [by apply list_elem_of_In | done].
  - intros Hfree. apply not_true_is_false. intros Hex.
    apply existsb_exists in Hex as (d & Hin & Hd).
    rewrite field_eqb_id, Hfree in Hd; [discriminate |].
    by apply list_elem_of_In.
Qed.

Lemma unique_keys_snoc (c : list Document) (doc : Document) :
  unique_keys c = true ->
  existsb (fun d => index_key_eqb (index_key d) (index_key doc)) c = false ->
  unique_keys (c ++ [doc]) = true.
Proof.
  induction c as [|d c IH]; intros Hu Hnew; [done |].
  cbn [unique_keys app existsb] in *.
  apply andb_true_iff in Hu as [Hd Hc].
  apply orb_false_iff in Hnew as [Hdn Hcn].
  rewrite forallb_app, Hd, IH by done. cbn [forallb]. by rewrite Hdn.
Qed.

Lemma FindOne_snoc (c : list Document) (doc : Document) (k : string) (v : Bson) :
  (forall d, d ∈ c -> matches k v d = false) ->
  matches k v doc = true ->
  FindOne (c ++ [doc]) k v = Some doc.
Proof.
  intros Hnone Hdoc. unfold FindOne.
  induction c as [|d c IH]; cbn [app find]; [by rewrite Hdoc |].
  rewrite Hnone by apply list_elem_of_here.
  apply IH. intros d' Hin. apply Hnone. by apply list_elem_of_further.
Qed.

(** The collection after [CreateOne] is the collection before, and the
    index stands. *)
Lemma CreateOne_ok (st : Store) :
  unique_keys (songs st) = true ->
  exists st1, CreateOne st = Some st1
              /\ songs st1 = songs st /\ songs_index st1 = true
              /\ fingerprints st1 = fingerprints st.
Proof.
  intros Hu. unfold CreateOne. destruct (songs_index st) eqn:Ei.
  - by exists st.
  - rewrite Hu. by eexists.
Qed.

(** What [RegisterSong] does on a registry that satisfies the
    invariant, by whether the pair and the identifier are taken. *)
Lemma RegisterSong_cases (st : Store) (songID : Z) (title artist ytID : string) :
  unique_keys (songs st) = true ->
  let key := GenerateSongKey title artist in
  let r := RegisterSong st songID title artist ytID in
  ((exists d, d ∈ songs st /\ has_pair ytID key d) \/ ~ id_free (songs st) songID)
  /\ snd r = Err ErrSongExists /\ songs (fst r) = songs st
  \/ (forall d, d ∈ songs st -> ~ has_pair ytID key d)
     /\ id_free (songs st) songID
     /\ snd r = Ok songID
     /\ songs (fst r) = songs st ++ [song_doc songID key ytID].
Proof.
  intros Hu key r. subst r. unfold RegisterSong.
  destruct (CreateOne_ok st Hu) as (st1 & -> & Hs & Hi & _).
  fold key. fold (song_doc songID key ytID).
  unfold InsertOne. rewrite Hs, Hi. cbn [andb].
  destruct (existsb (fun d => field_eqb (doc_get d "_id")
                                (doc_get (song_doc songID key ytID) "_id"))
              (songs st)) eqn:Eid.
  { left. cbn [orb fst snd]. split; [right | by rewrite Hs].
    intros Hfree. apply (existsb_id _ songID key ytID) in Hfree. congruence. }
  apply existsb_id in Eid.
  destruct (existsb (fun d => index_key_eqb (index_key d)
                                (index_key (song_doc songID key ytID)))
              (songs st)) eqn:Epair.
  { left. cbn [orb fst snd]. split; [left | by rewrite Hs].
    by apply (existsb_pair _ songID). }
  right. cbn [orb fst snd songs]. repeat split; try done.
  intros d Hin Hd.
  assert (existsb (fun d => index_key_eqb (index_key d)
                              (index_key (song_doc songID key ytID)))
            (songs st) = true) as Ht; [| congruence].
  apply existsb_pair. by exists d.
Qed.

(** C7, as amended: on a registry in which the pairs (externalRef,
    identityKey) are unique, [RegisterSong] keeps them unique; a song
    whose pair is that of an existing record is refused with the
    duplicate error and nothing is stored; a song whose pair no record
    has is stored and its identifier returned, provided the identifier
    generated for the call is not that of an existing record; and an
    identifier that is returned differs from those of all existing
    records. *)
Theorem RegisterSong_unique (st : Store) (songID : Z)
    (title artist ytID : string) :
  unique_keys (songs st) = true ->
  let key := GenerateSongKey title artist in
  let r := RegisterSong st songID title artist ytID in
  unique_keys (songs (fst r)) = true
  /\ ((exists d, d ∈ songs st /\ has_pair ytID key d) ->
      snd r = Err ErrSongExists /\ songs (fst r) = songs st)
  /\ ((forall d, d ∈ songs st -> ~ has_pair ytID key d) ->
      id_free (songs st) songID ->
      snd r = Ok songID
      /\ songs (fst r) = songs st ++ [song_doc songID key ytID])
  /\ (forall id, snd r = Ok id -> id_free (songs st) id).
Proof.
  intros Hu key r.
  destruct (RegisterSong_cases st songID title artist ytID Hu)
    as [(Hwhy & Hr & Hs) | (Hpair & Hfree & Hr & Hs)];
    fold key in Hwhy || fold key in Hpair; fold key r in Hr, Hs.
  - split; [by rewrite Hs |]. split; [done |]. split.
    + intros Hnone Hfree. destruct Hwhy as [(d & Hin & Hd) | Hused].
      * by destruct (Hnone d Hin).
      * done.
    + intros id Hid. congruence.
  - split.
    { rewrite Hs. apply unique_keys_snoc; [done |].
      apply not_true_is_false. intros Hex.
      apply existsb_pair in Hex as (d & Hin & Hd). by apply (Hpair d Hin). }
    split; [intros (d & Hin & Hd); by destruct (Hpair d Hin) |].
    split; [done |].
    intros id Hid. rewrite Hr in Hid. by injection Hid as <-.
Qed.

Lemma RegisterSong_unique_witness :
  let st := fst (RegisterSong (mkStore [] [] false) 7 "T" "A" "yt1") in
  snd (RegisterSong st 8 "T" "A" "yt1") = Err ErrSongExists
  /\ snd (RegisterSong st 8 "T" "B" "yt1") = Ok 8
  /\ snd (RegisterSong st 8 "T" "A" "yt2") = Ok 8.
Proof.
  cbv zeta.
  set (st := fst (RegisterSong (mkStore [] [] false) 7 "T" "A" "yt1")).
  assert (unique_keys (songs st) = true) as Hu by reflexivity.
  assert (id_free (songs st) 8) as Hfree.
  { intros d Hin. apply list_elem_of_singleton in Hin as ->. reflexivity. }
  split; [| split].
  - apply (RegisterSong_unique st 8 "T" "A" "yt1" Hu).
    exists (song_doc 7 "T---A" "yt1").
    split; [apply list_elem_of_here | by split].
  - apply (RegisterSong_unique st 8 "T" "B" "yt1" Hu); [| done].
    intros d Hin [_ Hk]. apply list_elem_of_singleton in Hin as ->.
    discriminate Hk.
  - apply (RegisterSong_unique st 8 "T" "A" "yt2" Hu); [| done].
    intros d Hin [Hy _]. apply list_elem_of_singleton in Hin as ->.
    discriminate Hy.
Defined.

(** C7 as stated fails: a song whose externalRef and identity key no
    record has is refused with the duplicate error when the identifier
    generated for the call is that of an existing record; nothing in
    [RegisterSong] checks the identifier or asks for another. *)
Lemma RegisterSong_refuses_taken_id :
  let st := fst (RegisterSong (mkStore [] [] false) 7 "T" "A" "yt1") in
  unique_keys (songs st) = true
  /\ (forall d, d ∈ songs st -> ~ has_pair "yt2" (GenerateSongKey "U" "B") d)
  /\ RegisterSong st 7 "U" "B" "yt2" = (st, Err ErrSongExists).
Proof.
  cbv zeta. split; [reflexivity |]. split; [| reflexivity].
  intros d Hin [Hy _]. apply list_elem_of_singleton in Hin as ->.
  discriminate Hy.
Qed.

(** A successful [RegisterSong] appends the document of the song to a
    collection in which its identifier was free. *)
Lemma RegisterSong_Ok (st st' : Store) (songID id : Z)
    (title artist ytID : string) :
  RegisterSong st songID title artist ytID = (st', Ok id) ->
  id = songID
  /\ id_free (songs st) songID
  /\ songs st'
     = songs st ++ [song_doc songID (GenerateSongKey title artist) ytID].
Proof.
  unfold RegisterSong. destruct (CreateOne st) as [st1|] eqn:Ec; [| done].
  assert (songs st1 = songs st) as Hs.
  { unfold CreateOne in Ec. destruct (songs_index st); [by injection Ec as <- |].
    destruct (unique_keys (songs st)); [by injection Ec as <- | done]. }
  fold (song_doc songID (GenerateSongKey title artist) ytID).
  unfold InsertOne. rewrite Hs.
  destruct (existsb _ (songs st)) eqn:Eid; [done |].
  cbn [orb]. destruct (songs_index st1 && _); [done |].
  intros [= <- <-]. cbn [songs]. split; [done |]. split; [| done].
  by apply existsb_id in Eid.
Qed.

Lemma genSplit_nonempty (cuts : nat) (s sep : string) :
  exists piece rest, genSplit cuts s sep = piece :: rest.
Proof.
  destruct cuts as [|cuts]; cbn [genSplit]; [by eexists _, _ |].
  destruct (Index s sep); by eexists _, _.
Qed.

(** When the first occurrence of the separator is the inserted one, the
    first piece of the split key is the title, and there is a second. *)
Lemma Split_key_title (title artist : string) :
  Index (GenerateSongKey title artist) "---" = Some (String.length title) ->
  exists piece rest,
    Split (GenerateSongKey title artist) "---" = title :: piece :: rest.
Proof.
  intros Hfirst. unfold Split, Count.
  destruct (String.length (GenerateSongKey title artist)) as [|fuel] eqn:El.
  { exfalso. unfold GenerateSongKey in El.
    destruct title; simpl in El; discriminate El. }
  cbn [Count_loop]. rewrite Hfirst. cbn [genSplit]. rewrite Hfirst.
  unfold GenerateSongKey at 1. rewrite take_str_app.
  match goal with
  | |- context [genSplit ?n ?s ?sep] =>
      destruct (genSplit_nonempty n s sep) as (piece & rest & ->)
  end.
  by eexists _, _.
Qed.

(** With an artist that does not contain the separator either, the
    artist comes back too. *)
Lemma GetSong_returns_both (st st' : Store) (songID : Z)
    (title artist ytID : string) :
  Index (GenerateSongKey title artist) "---" = Some (String.length title) ->
  Index artist "---" = None ->
  RegisterSong st songID title artist ytID = (st', Ok songID) ->
  GetSongByID st' songID = Ok (mkSong title artist ytID, true).
Proof.
  intros Hfirst Hnone Hreg.
  pose proof (Split_key title artist Hfirst Hnone) as Hsplit.
  apply RegisterSong_Ok in Hreg as (_ & Hfree & Hs).
  unfold_GetSong.
  change (Contains FILTER_KEYS "_id") with true. cbn [negb].
  rewrite Hs, (FindOne_snoc _ _ _ _ Hfree); [| unfold matches; cbn; lia].
  change (doc_get (song_doc songID (GenerateSongKey title artist) ytID) "ytID")
    with (Some (BString ytID)).
  change (doc_get (song_doc songID (GenerateSongKey title artist) ytID) "key")
    with (Some (BString (GenerateSongKey title artist))).
  cbn beta iota. by rewrite Hsplit.
Qed.

(** C8, as amended: when the first occurrence of the separator "---" in
    title + "---" + artist is the one put between them, splitting the
    identity key on the first occurrence of the separator gives back
    title and artist, and [GetSong] by the identifier of the registered
    song finds a song that carries exactly the title and the
    externalRef that were registered. *)
Theorem GetSong_returns_registered (st st' : Store) (songID : Z)
    (title artist ytID : string) :
  Index (GenerateSongKey title artist) "---" = Some (String.length title) ->
  RegisterSong st songID title artist ytID = (st', Ok songID) ->
  cut_first (GenerateSongKey title artist) "---" = Some (title, artist)
  /\ exists s, GetSongByID st' songID = Ok (s, true)
               /\ Title s = title /\ YouTubeID s = ytID.
Proof.
  intros Hfirst Hreg. split.
  - unfold cut_first. rewrite Hfirst. unfold GenerateSongKey.
    by rewrite take_str_app, drop_str_add, drop_str_app.
  - destruct (Split_key_title title artist Hfirst) as (piece & rest & Hsplit).
    apply RegisterSong_Ok in Hreg as (_ & Hfree & Hs).
    unfold_GetSong.
    change (Contains FILTER_KEYS "_id") with true. cbn [negb].
    rewrite Hs, (FindOne_snoc _ _ _ _ Hfree); [| unfold matches; cbn; lia].
    change (doc_get (song_doc songID (GenerateSongKey title artist) ytID)
              "ytID") with (Some (BString ytID)).
    change (doc_get (song_doc songID (GenerateSongKey title artist) ytID)
              "key") with (Some (BString (GenerateSongKey title artist))).
    cbn beta iota. rewrite Hsplit. cbn. by eexists.
Qed.

(** [GetSong] refuses a filter key exactly when it is not a substring of
    the literal "_id | ytID | key". *)
Lemma GetSong_filter_check (st : Store) (filterKey : string) (value : Bson) :
  GetSong st filterKey value = Err ErrFilterKey
  <-> Contains FILTER_KEYS filterKey = false.
Proof.
  unfold GetSong. destruct (Contains FILTER_KEYS filterKey); cbn [negb];
    [| done].
  split; [| done]. intros H. exfalso.
  destruct (selects filterKey value) as [selected|]; [| done].
  destruct (find selected (songs st)) as [song|]; [| done].
  destruct (doc_get song "ytID") as [[]|]; try done.
  destruct (doc_get song "key") as [[]|]; try done.
  destruct (Split _ "---" !! 0%nat); [| done].
  destruct (Split _ "---" !! 1%nat); done.
Qed.

End SongRegistry.

Lemma GetSong_returns_registered_witness :
  cut_first (GenerateSongKey "Hey Jude" "The Beatles") "---"
  = Some ("Hey Jude", "The Beatles")%string
  /\ exists s,
       GetSongByID (fst (RegisterSong (mkStore [] [] false) 7
                           "Hey Jude" "The Beatles" "yt1")) 7
       = Ok (s, true)
       /\ Title s = "Hey Jude"%string /\ YouTubeID s = "yt1"%string.
Proof.
  apply (GetSong_returns_registered (mkStore [] [] false)); reflexivity.
Defined.

(** C8 as stated fails: for a title that ends in "-" and for a title
    that contains "---", the first occurrence of the separator in the
    key is not the inserted one: splitting there gives another title and
    another artist, and so does [GetSong]. *)
Lemma GetSong_loses_separator_text :
  (let st := fst (RegisterSong (mkStore [] [] false) 7 "a-" "b" "yt1") in
   snd (RegisterSong (mkStore [] [] false) 7 "a-" "b" "yt1") = Ok 7
   /\ cut_first (GenerateSongKey "a-" "b") "---" = Some ("a", "-b")%string
   /\ GetSongByID st 7 = Ok (mkSong "a" "-b" "yt1", true))
  /\ (let st := fst (RegisterSong (mkStore [] [] false) 7 "a---b" "c" "yt1") in
      snd (RegisterSong (mkStore [] [] false) 7 "a---b" "c" "yt1") = Ok 7
      /\ cut_first (GenerateSongKey "a---b" "c") "---"
         = Some ("a", "b---c")%string
      /\ GetSongByID st 7 = Ok (mkSong "a" "b" "yt1", true)).
Proof. cbv zeta. repeat split; vm_compute; reflexivity. Qed.

(** An artist that contains the separator is cut short by [GetSong],
    which takes the second piece of [strings.Split], although the split
    on the first occurrence gives it back whole. *)
Lemma GetSong_cuts_artist :
  let st := fst (RegisterSong (mkStore [] [] false) 7 "t" "x---y" "yt1") in
  Index (GenerateSongKey "t" "x---y") "---" = Some (String.length "t")
  /\ cut_first (GenerateSongKey "t" "x---y") "---" = Some ("t", "x---y")%string
  /\ GetSongByID st 7 = Ok (mkSong "t" "x" "yt1", true).
Proof. cbv zeta. repeat split; vm_compute; reflexivity. Qed.

(** C4, the code at failing inputs: the filter keys "id" and
    "ytID | key" are none of the three allow-listed names, yet
    [GetSong] does not refuse them: it runs the lookup and reports that
    no song was found.  A name that is not a substring is refused. *)
Theorem GetSong_accepts_substrings :
  let st := fst (RegisterSong (mkStore [] [] false) 7 "T" "A" "yt1") in
  Contains FILTER_KEYS "id" = true
  /\ GetSong st "id" (BInt64 7) = Ok (mkSong "" "" "", false)
  /\ GetSong st "ytID | key" (BString "yt1") = Ok (mkSong "" "" "", false)
  /\ GetSong st "_id" (BInt64 7) = Ok (mkSong "T" "A" "yt1", true)
  /\ GetSong st "title" (BString "T") = Err ErrFilterKey.
Proof. cbv zeta. repeat split; vm_compute; reflexivity. Qed.

(** ** The fingerprint index *)

Section FingerprintIndex.

Lemma doc_get_set_eq (d : Document) (k : string) (v : Bson) :
  doc_get (doc_set d k v) k = Some v.
Proof.
  induction d as [|[k' v'] d IH]; cbn [doc_set doc_get].
  - by rewrite String.eqb_refl.
  - destruct (String.eqb k' k) eqn:E; cbn [doc_get]; by rewrite E.
Qed.

Lemma doc_get_set_ne (d : Document) (k k' : string) (v : Bson) :
  k <> k' -> doc_get (doc_set d k v) k' = doc_get d k'.
Proof.
  intros Hne. induction d as [|[j w] d IH]; cbn [doc_set doc_get].
  - by rewrite (proj2 (String.eqb_neq k k')).
  - destruct (String.eqb j k) eqn:E; cbn [doc_get].
    + apply String.eqb_eq in E as ->.
      by rewrite (proj2 (String.eqb_neq k k')).
    + by rewrite IH.
Qed.

Lemma doc_get_app (d e : Document) (k : string) :
  doc_get (d ++ e) k
  = match doc_get d k with Some v => Some v | None => doc_get e k end.
Proof.
  induction d as [|[j w] d IH]; cbn [app doc_get]; [done |].
  by destruct (String.eqb j k).
Qed.

Lemma push_couples_accepted (d : Document) (item : Bson) :
  match doc_get d "couples" with
  | Some (BArray _) | None => True
  | Some _ => False
  end ->
  exists d', push_couples d item = Some d'
             /\ doc_get d' "couples" = Some (BArray (couples_of d ++ [item]))
             /\ doc_get d' "_id" = doc_get d "_id".
Proof.
  unfold push_couples, couples_of.
  destruct (doc_get d "couples") as [[]|] eqn:E; try done; intros _.
  - eexists. split; [done |]. split; [apply doc_get_set_eq |].
    by apply doc_get_set_ne.
  - eexists. split; [done |]. rewrite !doc_get_app, E. split; [done |].
    by destruct (doc_get d "_id").
Qed.

Lemma bson_eqb_int64_ne (v : Bson) (a a' : Z) :
  bson_eqb v (BInt64 a) = true -> a' <> a -> bson_eqb v (BInt64 a') = false.
Proof. destruct v; cbn; try done; lia. Qed.

Lemma matches_id_ne (d : Document) (a a' : Z) :
  matches "_id" (BInt64 a) d = true -> a' <> a ->
  matches "_id" (BInt64 a') d = false.
Proof.
  unfold matches. destruct (doc_get d "_id"); [| done].
  apply bson_eqb_int64_ne.
Qed.

Lemma matches_same_id (d d' : Document) (v : Bson) :
  doc_get d' "_id" = doc_get d "_id" -> matches "_id" v d' = matches "_id" v d.
Proof. unfold matches. by intros ->. Qed.

(** One upsert: the bucket of the address gains the item at its end,
    and the documents of the other addresses stay as they are. *)
Lemma UpdateOne_accepted (c : list Document) (address : Z) (item : Bson) :
  accepts c address ->
  exists c' d',
    UpdateOne c address item = Some c'
    /\ find_bucket c' address = Some d'
    /\ doc_get d' "couples" = Some (BArray (old_items c address ++ [item]))
    /\ forall a, a <> address -> find_bucket c' a = find_bucket c a.
Proof.
  unfold accepts, old_items, find_bucket, FindOne.
  induction c as [|d c IH]; cbn [UpdateOne find].
  - intros _. eexists _, _. split; [done |]. cbn [find].
    assert (matches "_id" (BInt64 address)
              [("_id"%string, BInt64 address);
               ("couples"%string, BArray [item])] = true) as Hm
      by (unfold matches; cbn; lia).
    rewrite Hm. split; [done |]. split; [done |].
    intros a Ha. by rewrite (matches_id_ne _ _ _ Hm Ha).
  - destruct (matches "_id" (BInt64 address) d) eqn:Em.
    + intros Hacc.
      destruct (push_couples_accepted d item Hacc) as (d' & -> & Hc & Hid).
      cbn [option_map]. eexists _, d'. split; [done |]. cbn [find].
      rewrite (matches_same_id _ _ _ Hid), Em. split; [done |].
      split; [done |]. intros a Ha.
      rewrite (matches_same_id _ _ _ Hid).
      by rewrite (matches_id_ne _ _ _ Em Ha).
    + intros Hacc. destruct (IH Hacc) as (c' & d' & -> & Hf & Hc & Hother).
      cbn [option_map]. eexists _, d'. split; [done |]. cbn [find].
      rewrite Em. split; [done |]. split; [done |].
      intros a Ha. destruct (matches "_id" (BInt64 a) d); [done |].
      by apply Hother.
Qed.

(** A whole call: every entry is appended to the bucket of its address. *)
Lemma StoreFingerprints_range_accepted (entries : list (Z * Couple))
    (c : list Document) :
  NoDup entries.*1 ->
  (forall a, a ∈ entries.*1 -> accepts c a) ->
  exists c',
    StoreFingerprints_range c entries = (c', Ok tt)
    /\ (forall a couple, (a, couple) ∈ entries ->
          exists d, find_bucket c' a = Some d
                    /\ doc_get d "couples"
                       = Some (BArray (old_items c a ++ [couple_doc couple])))
    /\ (forall a, a ∉ entries.*1 -> find_bucket c' a = find_bucket c a).
Proof.
  revert c. induction entries as [|[address couple] rest IH]; intros c Hnd Hacc.
  - exists c. split; [done |]. split; [| done].
    intros a x Hin. by apply elem_of_nil in Hin.
  - cbn [fmap list_fmap fst] in Hnd, Hacc.
    apply NoDup_cons in Hnd as [Hfresh Hnd].
    destruct (UpdateOne_accepted c address (couple_doc couple))
      as (c1 & d1 & Hup & Hf1 & Hc1 & Hother1);
      [apply Hacc, list_elem_of_here |].
    destruct (IH c1 Hnd) as (c' & Hrun & Hin' & Hout').
    { intros a Ha. unfold accepts. rewrite Hother1.
      - apply Hacc. by apply list_elem_of_further.
      - intros ->. done. }
    exists c'. cbn [StoreFingerprints_range]. rewrite Hup.
    split; [done |]. split.
    + intros a x Hin. apply elem_of_cons in Hin as [[= -> ->] | Hin].
      * exists d1. by rewrite Hout'.
      * destruct (Hin' a x Hin) as (d & Hd & Hcd). exists d.
        split; [done |]. rewrite Hcd. unfold old_items. rewrite Hother1; [done |].
        intros ->. apply Hfresh. apply list_elem_of_fmap. by exists (address, x).
    + intros a Ha. cbn [fmap list_fmap fst] in Ha.
      apply not_elem_of_cons in Ha as [Hne Ha]. rewrite Hout' by done.
      by apply Hother1.
Qed.

Lemma couples_loop_app (address : Z) (l1 l2 : list Bson) (acc : list Couple) :
  couples_loop address (l1 ++ l2) acc
  = match couples_loop address l1 acc with
    | Ok acc' => couples_loop address l2 acc'
    | Err e => Err e
    | Panic => Panic
    end.
Proof.
  revert acc. induction l1 as [|item l1 IH]; intros acc; [done |].
  cbn [app couples_loop]. destruct item; try done.
  destruct (doc_get fields "anchorTimeMs") as [[]|]; try done.
  destruct (doc_get fields "songID") as [[]|]; done.
Qed.

Lemma couples_loop_couple_doc (address : Z) (couple : Couple)
    (acc : list Couple) :
  couple_ok couple ->
  couples_loop address [couple_doc couple] acc = Ok (acc ++ [couple]).
Proof.
  intros [Ha Hs]. destruct couple as [a s]. cbn in Ha, Hs |- *.
  unfold uint32. by rewrite !Z.mod_small by lia.
Qed.

Lemma range_of_entries (fp : gmap Z Couple) (entries : list (Z * Couple)) :
  range_of fp entries ->
  NoDup entries.*1
  /\ (forall a couple, (a, couple) ∈ entries <-> fp !! a = Some couple)
  /\ (forall a, a ∈ entries.*1 <-> is_Some (fp !! a)).
Proof.
  unfold range_of. intros Hperm.
  assert (forall a couple, (a, couple) ∈ entries <-> fp !! a = Some couple)
    as Hin.
  { intros a couple. rewrite Hperm. apply elem_of_map_to_list. }
  split; [rewrite Hperm; apply NoDup_fst_map_to_list |].
  split; [done |]. intros a. rewrite list_elem_of_fmap. split.
  - intros ([a' couple] & -> & H). exists couple. by apply Hin.
  - intros [couple H]. exists (a, couple). split; [done | by apply Hin].
Qed.

(** A whole call on a map: the couple of each address is appended to
    the bucket of that address, and nothing else changes. *)
Lemma StoreFingerprints_map (st : Store) (fp : gmap Z Couple)
    (entries : list (Z * Couple)) :
  range_of fp entries ->
  (forall a, is_Some (fp !! a) -> accepts (fingerprints st) a) ->
  exists st',
    StoreFingerprints st entries = (st', Ok tt)
    /\ songs st' = songs st /\ songs_index st' = songs_index st
    /\ (forall a couple, fp !! a = Some couple ->
          exists d,
            find_bucket (fingerprints st') a = Some d
            /\ doc_get d "couples"
               = Some (BArray (old_items (fingerprints st) a
                               ++ [couple_doc couple])))
    /\ (forall a, fp !! a = None ->
          find_bucket (fingerprints st') a = find_bucket (fingerprints st) a).
Proof.
  intros Hrange Hacc.
  destruct (range_of_entries fp entries Hrange) as (Hnd & Hin & Hdom).
  destruct (StoreFingerprints_range_accepted entries (fingerprints st) Hnd)
    as (c' & Hrun & Hstored & Hother).
  { intros a Ha. by apply Hacc, Hdom. }
  exists (mkStore c' (songs st) (songs_index st)).
  unfold StoreFingerprints. rewrite Hrun. split; [done |].
  cbn [fingerprints songs songs_index]. split; [done |]. split; [done |].
  split.
  - intros a couple Ha. by apply Hstored, Hin.
  - intros a Ha. apply Hother. rewrite Hdom, Ha. by intros [? ?].
Qed.

(** C2, as amended: [StoreFingerprints] takes a mapping from each
    address to one couple, and appends that couple to the bucket stored
    for the address, creating the bucket when there is none; buckets of
    other addresses are left as they are.  Storing c1 at an address,
    then c2 at the same address, then retrieving the address returns
    the couples the bucket held before followed by c1 and c2, in that
    order. *)
Theorem StoreFingerprints_appends :
  (forall (st : Store) (fp : gmap Z Couple) (entries : list (Z * Couple)),
     range_of fp entries ->
     (forall a, is_Some (fp !! a) -> accepts (fingerprints st) a) ->
     exists st',
       StoreFingerprints st entries = (st', Ok tt)
       /\ (forall a couple, fp !! a = Some couple ->
             exists d,
               find_bucket (fingerprints st') a = Some d
               /\ doc_get d "couples"
                  = Some (BArray (old_items (fingerprints st) a
                                  ++ [couple_doc couple])))
       /\ (forall a, fp !! a = None ->
             find_bucket (fingerprints st') a
             = find_bucket (fingerprints st) a))
  /\ (forall (st : Store) (address : Z) (c1 c2 : Couple) (old : list Couple),
        couple_ok c1 -> couple_ok c2 ->
        holds (fingerprints st) address old ->
        exists st1 st2,
          StoreFingerprints st [(address, c1)] = (st1, Ok tt)
          /\ StoreFingerprints st1 [(address, c2)] = (st2, Ok tt)
          /\ GetCouples st2 [address] = Ok {[address := old ++ [c1; c2]]}).
Proof.
  split.
  - intros st fp entries Hrange Hacc.
    destruct (StoreFingerprints_map st fp entries Hrange Hacc)
      as (st' & Hrun & _ & _ & Hstored & Hother).
    by exists st'.
  - intros st address c1 c2 old Hok1 Hok2 Hold.
    assert (accepts (fingerprints st) address
            /\ couples_loop address (old_items (fingerprints st) address) []
               = Ok old) as [Hacc Hdec].
    { unfold holds in Hold. unfold accepts, old_items, couples_of.
      destruct (find_bucket (fingerprints st) address) as [d|].
      - destruct Hold as (items & -> & Hitems). done.
      - by subst old. }
    destruct (UpdateOne_accepted (fingerprints st) address (couple_doc c1) Hacc)
      as (k1 & d1 & Hup1 & Hf1 & Hc1 & _).
    assert (accepts k1 address) as Hacc1
      by (unfold accepts; by rewrite Hf1, Hc1).
    destruct (UpdateOne_accepted k1 address (couple_doc c2) Hacc1)
      as (k2 & d2 & Hup2 & Hf2 & Hc2 & _).
    exists (mkStore k1 (songs st) (songs_index st)),
           (mkStore k2 (songs st) (songs_index st)).
    unfold StoreFingerprints. cbn [StoreFingerprints_range fingerprints].
    rewrite Hup1. split; [done |]. rewrite Hup2. split; [done |].
    unfold GetCouples. cbn [GetCouples_loop fingerprints].
    fold (find_bucket k2 address). rewrite Hf2, Hc2.
    unfold old_items at 1. rewrite Hf1. unfold couples_of. rewrite Hc1.
    rewrite !couples_loop_app, Hdec.
    rewrite couples_loop_couple_doc, couples_loop_couple_doc by done.
    rewrite insert_empty. by rewrite <- app_assoc.
Qed.

Lemma StoreFingerprints_appends_witness :
  (exists st',
     StoreFingerprints (mkStore [] [] false) [(5, mkCouple 1 2)]
     = (st', Ok tt)
     /\ exists d,
          find_bucket (fingerprints st') 5 = Some d
          /\ doc_get d "couples" = Some (BArray [couple_doc (mkCouple 1 2)]))
  /\ (exists st1 st2,
        StoreFingerprints (mkStore [] [] false) [(5, mkCouple 1 2)]
        = (st1, Ok tt)
        /\ StoreFingerprints st1 [(5, mkCouple 3 4)] = (st2, Ok tt)
        /\ GetCouples st2 [5] = Ok {[5 := [mkCouple 1 2; mkCouple 3 4]]}).
Proof.
  split.
  - destruct (proj1 StoreFingerprints_appends (mkStore [] [] false)
                {[5 := mkCouple 1 2]} [(5, mkCouple 1 2)])
      as (st' & Hrun & Hstored & _).
    + unfold range_of. by rewrite map_to_list_singleton.
    + done.
    + exists st'. split; [done |].
      apply (Hstored 5 (mkCouple 1 2)). apply lookup_singleton_eq.
  - apply (proj2 StoreFingerprints_appends (mkStore [] [] false) 5
             (mkCouple 1 2) (mkCouple 3 4) []).
    + unfold couple_ok. cbn. lia.
    + unfold couple_ok. cbn. lia.
    + reflexivity.
Defined.

(** What [GetCouples] returns for one address whose bucket has been
    written by single pushes: at most what the bucket holds. *)
Lemma GetCouples_one (c : list Document) (address : Z) (d : Document)
    (items : list Bson) :
  find_bucket c address = Some d ->
  doc_get d "couples" = Some (BArray items) ->
  GetCouples (mkStore c [] false) [address]
  = match couples_loop address items [] with
    | Ok docCouples => Ok {[address := docCouples]}
    | Err e => Err e
    | Panic => Panic
    end.
Proof.
  intros Hf Hc. unfold GetCouples. cbn [GetCouples_loop fingerprints].
  fold (find_bucket c address). rewrite Hf, Hc.
  destruct (couples_loop address items []); [| done | done].
  by rewrite insert_empty.
Qed.

(** C2 as stated fails: the specification's call with the sequence
    [c1; c2] at address 7 leaves both couples in the bucket, and no
    argument of [StoreFingerprints], whose map holds one couple per
    address, does the same to an empty index. *)
Lemma StoreFingerprints_one_couple_per_address :
  let c1 := mkCouple 1 2 in
  let c2 := mkCouple 3 4 in
  match StoreFingerprints_spec [] [(7, [c1; c2])] with
  | Some c => GetCouples (mkStore c [] false) [7] = Ok {[7 := [c1; c2]]}
  | None => False
  end
  /\ forall (fp : gmap Z Couple) (entries : list (Z * Couple)),
       range_of fp entries ->
       GetCouples (fst (StoreFingerprints (mkStore [] [] false) entries)) [7]
       <> Ok {[7 := [c1; c2]]}.
Proof.
  cbv zeta. split; [vm_compute; reflexivity |].
  intros fp entries Hrange.
  destruct (StoreFingerprints_map (mkStore [] [] false) fp entries Hrange)
    as (st' & Hrun & Hs & Hi & Hstored & Hother); [done |].
  rewrite Hrun. cbn [fst]. destruct st' as [c' s' i'].
  cbn [songs songs_index fingerprints] in Hs, Hi, Hstored, Hother.
  subst s' i'. intros Heq.
  destruct (fp !! 7) as [couple|] eqn:E7.
  - destruct (Hstored 7 couple E7) as (d & Hf & Hc).
    rewrite (GetCouples_one _ _ _ _ Hf Hc) in Heq.
    assert (couples_loop 7 (old_items [] 7 ++ [couple_doc couple]) []
            = Ok [mkCouple (uint32 (AnchorTimeMs couple))
                           (uint32 (SongID couple))]) as Hone by reflexivity.
    rewrite Hone in Heq. apply (f_equal (bucket_length 7)) in Heq.
    unfold bucket_length in Heq.
    rewrite !lookup_singleton_eq in Heq. discriminate Heq.
  - unfold GetCouples in Heq. cbn [GetCouples_loop fingerprints] in Heq.
    fold (find_bucket c' 7) in Heq. rewrite (Hother 7 E7) in Heq.
    change (find_bucket [] 7) with (@None Document) in Heq.
    apply (f_equal (bucket_length 7)) in Heq. unfold bucket_length in Heq.
    rewrite lookup_empty, lookup_singleton_eq in Heq. discriminate Heq.
Qed.

(** C3, the code at failing inputs: a bucket whose entry has an
    "anchorTimeMs" that is not a 64-bit integer (a string, a 32-bit
    integer, or no such field) makes [GetCouples] panic at the unchecked
    type assertion instead of returning the error; the two shapes the
    code does check, a "couples" field that is not an array and an entry
    that is not a document, give the error that names the address. *)
Theorem GetCouples_panics_on_bad_entry :
  let bucket items :=
    mkStore [[("_id"%string, BInt64 5); ("couples"%string, items)]] [] false in
  GetCouples (bucket (BArray [BDoc [("anchorTimeMs"%string, BString "12");
                                    ("songID"%string, BInt64 1)]])) [5]
  = Panic
  /\ GetCouples (bucket (BArray [BDoc [("anchorTimeMs"%string, BInt32 12);
                                       ("songID"%string, BInt64 1)]])) [5]
     = Panic
  /\ GetCouples (bucket (BArray [BDoc [("songID"%string, BInt64 1)]])) [5]
     = Panic
  /\ GetCouples (bucket (BArray [BDoc [("anchorTimeMs"%string, BInt64 12)]]))
                [5]
     = Panic
  /\ GetCouples (bucket (BString "none")) [5] = Err (ErrCouplesField 5)
  /\ GetCouples (bucket (BArray [BInt64 12])) [5] = Err (ErrCoupleFormat 5).
Proof. cbv zeta. repeat split; vm_compute; reflexivity. Qed.

End FingerprintIndex.

(** ** More on the container codec *)

Section WavCodecMore.

Lemma Uint32_range (b0 b1 b2 b3 : byte) : 0 <= Uint32 b0 b1 b2 b3 < 2 ^ 32.
Proof.
  rewrite Uint32_sum.
  pose proof (Z_of_byte_range b0). pose proof (Z_of_byte_range b1).
  pose proof (Z_of_byte_range b2). pose proof (Z_of_byte_range b3). lia.
Qed.

Lemma Uint16_bounds (b0 b1 : byte) : 0 <= Uint16 b0 b1 < 2 ^ 16.
Proof.
  rewrite Uint16_sum.
  pose proof (Z_of_byte_range b0). pose proof (Z_of_byte_range b1). lia.
Qed.

Lemma field16_bounds (off : nat) (data : list byte) (v : Z) :
  field16 off data = Some v -> 0 <= v < 2 ^ 16.
Proof.
  unfold field16. destruct (drop off data) as [|b0 [|b1 ?]]; try done.
  intros [= <-]. apply Uint16_bounds.
Qed.

Lemma field32_bounds (off : nat) (data : list byte) (v : Z) :
  field32 off data = Some v -> 0 <= v < 2 ^ 32.
Proof.
  unfold field32.
  destruct (drop off data) as [|b0 [|b1 [|b2 [|b3 ?]]]]; try done.
  intros [= <-]. apply Uint32_range.
Qed.

(** X1: every outcome of [ReadWavInfo], by the file it is given.  It
    never panics; a missing file, a file under 44 bytes, a wrong magic,
    format tag or format code, and a bit depth other than 16 each give
    their own error; and a result carries the channel count of offset
    22, the sample rate of offset 24 and the bytes from offset 44 on. *)
Theorem ReadWavInfo_outcomes (fs : FileSystem) (filename : string) :
  match ReadWavInfo fs filename with
  | Panic => False
  | Err ErrReadFile => fs_files fs !! filename = None
  | Err ErrTooSmall =>
      exists data, fs_files fs !! filename = Some data
                   /\ (length data < 44)%nat
  | Err ErrBadHeader =>
      exists data, fs_files fs !! filename = Some data
                   /\ (44 <= length data)%nat
                   /\ (take 4 data <> RIFF \/ take 4 (drop 8 data) <> WAVE
                       \/ field16 20 data <> Some 1)
  | Err ErrUnsupportedBits =>
      exists data, fs_files fs !! filename = Some data
                   /\ (44 <= length data)%nat
                   /\ take 4 data = RIFF /\ take 4 (drop 8 data) = WAVE
                   /\ field16 20 data = Some 1
                   /\ field16 34 data <> Some 16
  | Err _ => False
  | Ok info =>
      exists data, fs_files fs !! filename = Some data
                   /\ (44 <= length data)%nat
                   /\ take 4 data = RIFF /\ take 4 (drop 8 data) = WAVE
                   /\ field16 20 data = Some 1
                   /\ field16 34 data = Some 16
                   /\ field16 22 data = Some (Channels info)
                   /\ field32 24 data = Some (SampleRate' info)
                   /\ 0 <= Channels info < 2 ^ 16
                   /\ 0 <= SampleRate' info < 2 ^ 32
                   /\ Data info = drop 44 data
  end.
Proof.
  unfold ReadWavInfo, ReadFile.
  destruct (fs_files fs !! filename) as [data|] eqn:Hfile; [| done].
  destruct (Z.of_nat (length data) <? 44) eqn:Hlen.
  { exists data. split; [done |]. lia. }
  assert (44 <= length data)%nat as Hge by lia. clear Hlen.
  do 44 (destruct data as [|? data]; [cbn in Hge; lia |]).
  cbv [binary_Read rbind rret read_tag read_u16 read_u32 take firstn].
  cbn [ChunkID Format AudioFormat BitsPerSample NumChannels SampleRate].
  match goal with
  | |- context [bool_decide (?l = RIFF)] =>
      destruct (bool_decide (l = RIFF)) eqn:Hriff
  end; cbn [negb orb].
  2:{ eexists. split; [done |]. split; [done |]. left.
      cbv [take firstn]. by apply bool_decide_eq_false in Hriff. }
  apply bool_decide_eq_true in Hriff.
  match goal with
  | |- context [bool_decide (?l = WAVE)] =>
      destruct (bool_decide (l = WAVE)) eqn:Hwave
  end; cbn [negb orb].
  2:{ eexists. split; [done |]. split; [done |]. right. left.
      cbv [take firstn drop skipn]. by apply bool_decide_eq_false in Hwave. }
  apply bool_decide_eq_true in Hwave.
  match goal with
  | |- context [negb (?v =? 1)] => destruct (v =? 1) eqn:Hfmt
  end; cbn [negb].
  2:{ eexists. split; [done |]. split; [done |]. right. right.
      cbv [field16 drop skipn]. intros [= Heq]. lia. }
  apply Z.eqb_eq in Hfmt.
  match goal with
  | |- context [?v =? 16] => destruct (v =? 16) eqn:Hbits
  end.
  - apply Z.eqb_eq in Hbits. eexists. split; [done |]. split; [done |].
    cbv [field16 field32 take firstn drop skipn].
    cbn [Channels SampleRate' Data]. rewrite Hfmt, Hbits.
    repeat (split; [done |]).
    split; [apply Uint16_bounds |]. split; [apply Uint32_range | done].
  - eexists. split; [done |]. split; [done |].
    cbv [field16 take firstn drop skipn]. rewrite Hfmt.
    repeat (split; [done |]). intros [= Heq]. lia.
Qed.

(** X2: whatever [WriteWavFile] answers, it does not panic, every other
    file keeps its content, and the set of names it may not create is
    the same; when the name may not be created the call fails and the
    file system is as before. *)
Theorem WriteWavFile_frame (fs : FileSystem) (filename : string)
    (data : list byte) (sampleRate channels bitsPerSample : Z) :
  let w := WriteWavFile fs filename data sampleRate channels bitsPerSample in
  snd w <> Panic
  /\ fs_denied (fst w) = fs_denied fs
  /\ (forall other, other <> filename ->
        fs_files (fst w) !! other = fs_files fs !! other)
  /\ (filename ∈ fs_denied fs -> w = (fs, Err ErrCreate)).
Proof.
  cbv zeta. unfold WriteWavFile, os_Create.
  destruct (decide (filename ∈ fs_denied fs)) as [Hden|Hfree].
  { repeat split; done. }
  destruct ((sampleRate <=? 0) || (channels <=? 0) || (bitsPerSample <=? 0))
    eqn:Hpos.
  { cbn [fst snd fs_denied fs_files]. repeat split; try done.
    intros other Hne. by rewrite lookup_insert_ne. }
  apply orb_false_elim in Hpos as [Hpos Hb].
  apply orb_false_elim in Hpos as [Hs Hc].
  unfold writeWavHeader. replace (channels =? 0) with false by lia.
  destruct (negb (Z.rem (Z.of_nat (length data)) channels =? 0)).
  { cbn [fst snd fs_denied fs_files]. repeat split; try done.
    intros other Hne. by rewrite lookup_insert_ne. }
  unfold file_Write. cbn [fst snd fs_denied fs_files].
  repeat split; try done.
  intros other Hne. by rewrite !lookup_insert_ne.
Qed.

Lemma WriteWavFile_frame_witness :
  let fs := mkFS {["b.wav"%string := [x01]]} {["locked.wav"%string]} in
  fs_files (fst (WriteWavFile fs "a.wav" [x07; x08] 8000 1 16)) !! "b.wav"%string
  = Some [x01]
  /\ WriteWavFile fs "locked.wav" [x07; x08] 8000 1 16 = (fs, Err ErrCreate).
Proof.
  cbv zeta. split.
  - rewrite (proj1 (proj2 (proj2 (WriteWavFile_frame
               (mkFS {["b.wav"%string := [x01]]} {["locked.wav"%string]})
               "a.wav" [x07; x08] 8000 1 16))) "b.wav"%string); done.
  - apply WriteWavFile_frame. cbn. by apply elem_of_singleton.
Defined.

Lemma binary_Write_wav_length data sampleRate channels bitsPerSample :
  length (wav_image data sampleRate channels bitsPerSample)
  = (44 + length data)%nat.
Proof.
  unfold wav_image. by rewrite length_app, length_binary_Write.
Qed.

(** X3: the layout of a written file.  For valid parameters whose
    derived sizes fit their header fields, [WriteWavFile] leaves a file
    of 44 + len(data) bytes whose header reads back as "RIFF",
    36 + len(data), "WAVE", "fmt ", 16, format 1, the channel count, the
    sample rate, the byte rate sampleRate * channels * (bits / 8), the
    block size channels * (bits / 8), the bit depth, "data" and
    len(data), followed by the data. *)
Theorem WriteWavFile_layout (fs : FileSystem) (filename : string)
    (data : list byte) (sampleRate channels bitsPerSample : Z) :
  filename ∉ fs_denied fs ->
  0 < sampleRate < 2 ^ 32 -> 0 < channels < 2 ^ 16 ->
  0 < bitsPerSample < 2 ^ 16 ->
  Z.rem (Z.of_nat (length data)) channels = 0 ->
  36 + Z.of_nat (length data) < 2 ^ 32 ->
  sampleRate * channels * Z.quot bitsPerSample 8 < 2 ^ 32 ->
  channels * Z.quot bitsPerSample 8 < 2 ^ 16 ->
  exists fs' content,
    WriteWavFile fs filename data sampleRate channels bitsPerSample
    = (fs', Ok tt)
    /\ fs_files fs' !! filename = Some content
    /\ length content = (44 + length data)%nat
    /\ drop 44 content = data
    /\ header_of content
       = Some {| ChunkID := RIFF;
                 ChunkSize := 36 + Z.of_nat (length data);
                 Format := WAVE;
                 Subchunk1ID := fmt_;
                 Subchunk1Size := 16;
                 AudioFormat := 1;
                 NumChannels := channels;
                 SampleRate := sampleRate;
                 BytesPerSec := sampleRate * channels * Z.quot bitsPerSample 8;
                 BlockAlign := channels * Z.quot bitsPerSample 8;
                 BitsPerSample := bitsPerSample;
                 Subchunk2ID := data_;
                 Subchunk2Size := Z.of_nat (length data) |}.
Proof.
  intros Hfree Hs Hc Hb Hdiv Hsize Hrate Halign.
  destruct (WriteWavFile_ok fs filename data sampleRate channels bitsPerSample)
    as (fs' & Hw & Hfile); [done | lia | lia | lia | done |].
  exists fs', (wav_image data sampleRate channels bitsPerSample).
  split; [done |]. split; [done |].
  split; [apply binary_Write_wav_length |].
  assert (0 <= Z.quot bitsPerSample 8) as Hq by (apply Z.quot_pos; lia).
  assert (0 <= sampleRate * channels * Z.quot bitsPerSample 8) as Hr0 by nia.
  assert (0 <= channels * Z.quot bitsPerSample 8) as Ha0 by nia.
  unfold wav_image, header_of.
  match goal with |- context [binary_Write ?h ++ data] => set (hd := h) end.
  assert (length (binary_Write hd) = 44%nat) as Hlen
    by (by apply length_binary_Write).
  split; [by apply drop_app_length' |].
  rewrite take_app_length' by done.
  replace (binary_Read (binary_Write hd))
    with (binary_Read (binary_Write hd ++ [])) by (by rewrite app_nil_r).
  rewrite binary_Read_Write by done. cbn [fmap option_fmap option_map fst].
  cbn [ChunkID ChunkSize Format Subchunk1ID Subchunk1Size AudioFormat
       NumChannels SampleRate BytesPerSec BlockAlign BitsPerSample
       Subchunk2ID Subchunk2Size hd].
  unfold uint16, uint32. rewrite !Z.mod_mod by lia.
  by rewrite !Z.mod_small by lia.
Qed.

Lemma WriteWavFile_layout_witness :
  exists fs' content,
    WriteWavFile (mkFS ∅ ∅) "a.wav" [x01; x02; x03; x04] 44100 2 16
    = (fs', Ok tt)
    /\ fs_files fs' !! "a.wav"%string = Some content
    /\ length content = (44 + 4)%nat
    /\ drop 44 content = [x01; x02; x03; x04]
    /\ header_of content
       = Some {| ChunkID := RIFF; ChunkSize := 36 + 4; Format := WAVE;
                 Subchunk1ID := fmt_; Subchunk1Size := 16; AudioFormat := 1;
                 NumChannels := 2; SampleRate := 44100;
                 BytesPerSec := 44100 * 2 * Z.quot 16 8;
                 BlockAlign := 2 * Z.quot 16 8; BitsPerSample := 16;
                 Subchunk2ID := data_; Subchunk2Size := 4 |}.
Proof.
  apply (WriteWavFile_layout (mkFS ∅ ∅) "a.wav" [x01; x02; x03; x04] 44100 2 16);
    [set_solver | lia | lia | lia | reflexivity | by vm_compute ..].
Defined.

(** X4: a file written with a bit depth other than 16 is a file
    [ReadWavInfo] refuses: for valid parameters with
    0 < bitsPerSample < 2^16 and bitsPerSample <> 16 the write succeeds
    and reading the written file fails with the bit-depth error. *)
Theorem WriteWavFile_other_depth_unreadable (fs : FileSystem)
    (filename : string) (data : list byte)
    (sampleRate channels bitsPerSample : Z) :
  filename ∉ fs_denied fs ->
  0 < sampleRate -> 0 < channels ->
  0 < bitsPerSample < 2 ^ 16 -> bitsPerSample <> 16 ->
  Z.rem (Z.of_nat (length data)) channels = 0 ->
  exists fs',
    WriteWavFile fs filename data sampleRate channels bitsPerSample
    = (fs', Ok tt)
    /\ ReadWavInfo fs' filename = Err ErrUnsupportedBits.
Proof.
  intros Hfree Hs Hc Hb Hne Hdiv.
  destruct (WriteWavFile_ok fs filename data sampleRate channels bitsPerSample)
    as (fs' & Hw & Hfile); [done | done | done | lia | done |].
  exists fs'. split; [done |].
  unfold ReadWavInfo, ReadFile. rewrite Hfile.
  rewrite binary_Write_wav_length.
  rewrite (proj2 (Z.ltb_ge _ _)) by lia.
  unfold wav_image.
  match goal with |- context [binary_Write ?h ++ data] => set (hd := h) end.
  assert (length (binary_Write hd) = 44%nat) as Hlen
    by (by apply length_binary_Write).
  rewrite take_app_length' by done.
  replace (binary_Read (binary_Write hd))
    with (binary_Read (binary_Write hd ++ [])) by (by rewrite app_nil_r).
  rewrite binary_Read_Write by done.
  cbn [ChunkID Format AudioFormat BitsPerSample NumChannels SampleRate hd].
  change (uint16 (uint16 1) =? 1) with true.
  rewrite !bool_decide_eq_true_2 by done. cbn [negb orb].
  unfold uint16. rewrite Z.mod_mod by lia. rewrite Z.mod_small by lia.
  by rewrite (proj2 (Z.eqb_neq _ _) Hne).
Qed.

Lemma WriteWavFile_other_depth_unreadable_witness :
  exists fs',
    WriteWavFile (mkFS ∅ ∅) "a.wav" [x01; x02; x03] 8000 1 24 = (fs', Ok tt)
    /\ ReadWavInfo fs' "a.wav" = Err ErrUnsupportedBits.
Proof.
  apply WriteWavFile_other_depth_unreadable;
    [set_solver | lia | lia | lia | lia | reflexivity].
Defined.

End WavCodecMore.

(** ** More on samples *)

Section WavSamplesMore.

Lemma Z_of_byte_inj (b c : byte) : Z_of_byte b = Z_of_byte c -> b = c.
Proof.
  intros H. rewrite <- (byte_of_Z_of_byte b), <- (byte_of_Z_of_byte c).
  by rewrite H.
Qed.

Lemma sample_value_inj (b0 b1 c0 c1 : byte) :
  sample_value b0 b1 = sample_value c0 c1 -> b0 = c0 /\ b1 = c1.
Proof.
  unfold sample_value.
  pose proof (Z_of_byte_range b0). pose proof (Z_of_byte_range b1).
  pose proof (Z_of_byte_range c0). pose proof (Z_of_byte_range c1).
  intros Heq.
  assert (Z_of_byte b0 = Z_of_byte c0 /\ Z_of_byte b1 = Z_of_byte c1)
    as [E0 E1].
  { destruct (Z_of_byte b0 + 256 * Z_of_byte b1 <? 32768) eqn:Eb,
             (Z_of_byte c0 + 256 * Z_of_byte c1 <? 32768) eqn:Ec; lia. }
  split; by apply Z_of_byte_inj.
Qed.

(** Two pairs of bytes that give the same float are the same pair. *)
Lemma sample_of_inj (b0 b1 c0 c1 : byte) :
  sample_of b0 b1 = sample_of c0 c1 -> b0 = c0 /\ b1 = c1.
Proof.
  intros Heq.
  destruct (sample_of_exact b0 b1) as (q & Hq & Hvq).
  destruct (sample_of_exact c0 c1) as (r & Hr & Hvr).
  rewrite Heq, Hr in Hq. injection Hq as <-.
  apply sample_value_inj.
  rewrite Hvq in Hvr. unfold Qeq in Hvr. cbn in Hvr. lia.
Qed.

(** X5: the conversion is lossless: two inputs of even length that
    convert to the same samples are the same bytes. *)
Theorem WavBytesToSamples_injective (input1 input2 : list byte) :
  Nat.Even (length input1) -> Nat.Even (length input2) ->
  WavBytesToSamples input1 = WavBytesToSamples input2 ->
  input1 = input2.
Proof.
  intros He1 He2.
  rewrite (WavBytesToSamples_even _ He1), (WavBytesToSamples_even _ He2).
  intros [= Heq]. revert input2 He1 He2 Heq.
  induction input1 as [| |b0 b1 rest IH] using pair_ind; intros input2 He1 He2.
  - destruct input2 as [|c0 [|c1 rest2]]; [done | | done].
    destruct He2 as [k Hk]. cbn in Hk. lia.
  - destruct He1 as [k Hk]. cbn in Hk. lia.
  - destruct input2 as [|c0 [|c1 rest2]]; [done | |].
    + destruct He2 as [k Hk]. cbn in Hk. lia.
    + cbn [samples_loop]. intros [= Hs Hrest].
      apply sample_of_inj in Hs as [-> ->]. f_equal. f_equal.
      apply IH; [| | done].
      * destruct He1 as [k Hk]. exists (k - 1)%nat. cbn in Hk. lia.
      * destruct He2 as [k Hk]. exists (k - 1)%nat. cbn in Hk. lia.
Qed.

Lemma WavBytesToSamples_injective_witness :
  [byte_of_Z 0; byte_of_Z 128] = [x00; x80].
Proof.
  apply WavBytesToSamples_injective;
    [by exists 1%nat | by exists 1%nat | reflexivity].
Defined.

Lemma samples_loop_app (input1 input2 : list byte) :
  Nat.Even (length input1) ->
  samples_loop (input1 ++ input2) = samples_loop input1 ++ samples_loop input2.
Proof.
  induction input1 as [| |b0 b1 rest IH] using pair_ind; intros He.
  - done.
  - destruct He as [k Hk]. cbn in Hk. lia.
  - cbn [app samples_loop]. rewrite IH; [done |].
    destruct He as [k Hk]. exists (k - 1)%nat. cbn in Hk. lia.
Qed.

(** X6: converting a buffer made of two pieces of even length gives the
    samples of the first piece followed by those of the second; when the
    first piece has even and the second odd length, the whole fails. *)
Theorem WavBytesToSamples_app (input1 input2 : list byte) :
  Nat.Even (length input1) ->
  WavBytesToSamples (input1 ++ input2)
  = match WavBytesToSamples input1, WavBytesToSamples input2 with
    | Ok output1, Ok output2 => Ok (output1 ++ output2)
    | _, _ => Err ErrInputLength
    end.
Proof.
  intros He1. rewrite (WavBytesToSamples_even _ He1).
  destruct (Nat.Even_or_Odd (length input2)) as [He2|Ho2].
  - rewrite (WavBytesToSamples_even _ He2), WavBytesToSamples_even.
    + by rewrite samples_loop_app.
    + rewrite length_app. destruct He1 as [j Hj], He2 as [k Hk].
      exists (j + k)%nat. lia.
  - rewrite (WavBytesToSamples_odd _ Ho2), WavBytesToSamples_odd; [done |].
    rewrite length_app. destruct He1 as [j Hj], Ho2 as [k Hk].
    exists (j + k)%nat. lia.
Qed.

Lemma WavBytesToSamples_app_witness :
  WavBytesToSamples ([x00; x80] ++ [xff; x7f])
  = match WavBytesToSamples [x00; x80], WavBytesToSamples [xff; x7f] with
    | Ok output1, Ok output2 => Ok (output1 ++ output2)
    | _, _ => Err ErrInputLength
    end.
Proof. apply WavBytesToSamples_app. by exists 1%nat. Defined.

End WavSamplesMore.

(** ** More on the fingerprint index *)

Section FingerprintIndexMore.

Lemma push_couples_id (d d' : Document) (item : Bson) :
  push_couples d item = Some d' -> doc_get d' "_id" = doc_get d "_id".
Proof.
  unfold push_couples.
  destruct (doc_get d "couples") as [[]|] eqn:E; try done; intros [= <-].
  - by apply doc_get_set_ne.
  - rewrite doc_get_app. by destruct (doc_get d "_id").
Qed.

(** The document found for each address after one upsert. *)
Lemma UpdateOne_find (c c' : list Document) (address : Z) (item : Bson) :
  UpdateOne c address item = Some c' ->
  find_bucket c' address
  = match find_bucket c address with
    | Some d => push_couples d item
    | None => Some [("_id"%string, BInt64 address);
                    ("couples"%string, BArray [item])]
    end
  /\ forall a, a <> address -> find_bucket c' a = find_bucket c a.
Proof.
  unfold find_bucket, FindOne. revert c'.
  induction c as [|d c IH]; intros c'; cbn [UpdateOne find].
  - intros [= <-]. cbn [find].
    assert (matches "_id" (BInt64 address)
              [("_id"%string, BInt64 address);
               ("couples"%string, BArray [item])] = true) as Hm
      by (unfold matches; cbn; lia).
    rewrite Hm. split; [done |].
    intros a Ha. by rewrite (matches_id_ne _ _ _ Hm Ha).
  - destruct (matches "_id" (BInt64 address) d) eqn:Em.
    + destruct (push_couples d item) as [d'|] eqn:Ep; [| done].
      intros [= <-]. cbn [find].
      pose proof (push_couples_id _ _ _ Ep) as Hid.
      rewrite (matches_same_id _ _ _ Hid), Em. split; [done |].
      intros a Ha. rewrite (matches_same_id _ _ _ Hid).
      by rewrite (matches_id_ne _ _ _ Em Ha).
    + destruct (UpdateOne c address item) as [c1|] eqn:Eu; [| done].
      intros [= <-]. cbn [find]. rewrite Em.
      destruct (IH c1 eq_refl) as [Hsame Hother]. split; [done |].
      intros a Ha. destruct (matches "_id" (BInt64 a) d); [done |].
      by apply Hother.
Qed.

Lemma UpdateOne_rejected (c : list Document) (address : Z) (item : Bson) :
  ~ accepts c address -> UpdateOne c address item = None.
Proof.
  unfold accepts, find_bucket, FindOne.
  induction c as [|d c IH]; cbn [UpdateOne find]; [done |].
  destruct (matches "_id" (BInt64 address) d).
  - unfold push_couples.
    destruct (doc_get d "couples") as [[]|]; try done; intros H; by destruct H.
  - intros H. by rewrite IH.
Qed.

Lemma StoreFingerprints_range_app (c : list Document)
    (entries1 entries2 : list (Z * Couple)) :
  StoreFingerprints_range c (entries1 ++ entries2)
  = match StoreFingerprints_range c entries1 with
    | (c1, Ok _) => StoreFingerprints_range c1 entries2
    | r => r
    end.
Proof.
  revert c. induction entries1 as [|[a couple] rest IH]; intros c; [done |].
  cbn [app StoreFingerprints_range].
  destruct (UpdateOne c a (couple_doc couple)); [apply IH | done].
Qed.

(** X7: a refused push stops the call where it stands.  When the
    entries visited first are accepted and the next address has a
    document whose "couples" is not an array, the call returns the
    upsert error, and the index is the one the entries visited first
    produce: they stay written, the later ones are not. *)
Theorem StoreFingerprints_stops_at_refusal (st : Store)
    (before after : list (Z * Couple)) (address : Z) (couple : Couple) :
  NoDup (before ++ (address, couple) :: after).*1 ->
  (forall a, a ∈ before.*1 -> accepts (fingerprints st) a) ->
  ~ accepts (fingerprints st) address ->
  exists st1,
    StoreFingerprints st before = (st1, Ok tt)
    /\ StoreFingerprints st (before ++ (address, couple) :: after)
       = (st1, Err ErrUpsert).
Proof.
  intros Hnd Hacc Hrej.
  rewrite fmap_app in Hnd. apply NoDup_app in Hnd as (Hnd1 & Hdisj & Hnd2).
  destruct (StoreFingerprints_range_accepted before (fingerprints st) Hnd1 Hacc)
    as (c1 & Hrun & _ & Hother).
  exists (mkStore c1 (songs st) (songs_index st)).
  unfold StoreFingerprints. rewrite StoreFingerprints_range_app, Hrun.
  split; [done |]. cbn [StoreFingerprints_range].
  rewrite UpdateOne_rejected; [done |].
  unfold accepts. rewrite Hother; [done |].
  intros Hin. apply (Hdisj address Hin). cbn. apply list_elem_of_here.
Qed.

Lemma StoreFingerprints_stops_at_refusal_witness :
  let st := mkStore [[("_id"%string, BInt64 9);
                      ("couples"%string, BString "none")]] [] false in
  exists st1,
    StoreFingerprints st [(5, mkCouple 1 2)] = (st1, Ok tt)
    /\ StoreFingerprints st ([(5, mkCouple 1 2)]
                             ++ (9, mkCouple 3 4) :: [(6, mkCouple 5 6)])
       = (st1, Err ErrUpsert).
Proof.
  cbv zeta. apply StoreFingerprints_stops_at_refusal.
  - apply (bool_decide_unpack _). by vm_compute.
  - intros a Ha. cbn in Ha. apply list_elem_of_singleton in Ha as ->.
    exact I.
  - intros H. exact H.
Defined.

Lemma UpdateOne_wf (c : list Document) (address : Z) (couple : Couple) :
  index_wf c ->
  exists c', UpdateOne c address (couple_doc couple) = Some c' /\ index_wf c'.
Proof.
  assert (couple_entry (couple_doc couple)) as Hentry
    by (by exists (AnchorTimeMs couple), (SongID couple)).
  unfold index_wf. induction c as [|d c IH]; intros Hwf; cbn [UpdateOne].
  - eexists. split; [done |]. constructor; [| constructor].
    exists [couple_doc couple]. split; [done |]. by constructor.
  - apply Forall_cons in Hwf as [(items & Hd & Hitems) Hwf].
    destruct (matches "_id" (BInt64 address) d).
    + unfold push_couples. rewrite Hd. cbn [option_map]. eexists.
      split; [done |]. constructor; [| done].
      exists (items ++ [couple_doc couple]).
      split; [apply doc_get_set_eq |].
      apply Forall_app. split; [done | by constructor].
    + destruct (IH Hwf) as (c' & -> & Hwf'). cbn [option_map]. eexists.
      split; [done |]. constructor; [| done]. by exists items.
Qed.

Lemma couples_loop_wf (address : Z) (items : list Bson) (acc : list Couple) :
  Forall couple_entry items ->
  exists docCouples, couples_loop address items acc = Ok docCouples.
Proof.
  intros Hitems. revert acc.
  induction Hitems as [|item items (a & s & ->) _ IH]; intros acc.
  - by eexists.
  - cbn. apply IH.
Qed.

Lemma couples_loop_range (address : Z) (items : list Bson)
    (acc docCouples : list Couple) :
  couples_loop address items acc = Ok docCouples ->
  Forall couple_ok acc -> Forall couple_ok docCouples.
Proof.
  revert acc. induction items as [|item items IH]; intros acc.
  - by intros [= <-].
  - cbn [couples_loop]. destruct item; try done.
    destruct (doc_get fields "anchorTimeMs") as [[]|]; try done.
    destruct (doc_get fields "songID") as [[]|]; try done.
    intros Hrun Hacc. apply (IH _ Hrun).
    apply Forall_app. split; [done |]. constructor; [| constructor].
    unfold couple_ok, uint32. cbn.
    split; apply Z.mod_pos_bound; lia.
Qed.

Lemma find_bucket_elem (c : list Document) (address : Z) (d : Document) :
  find_bucket c address = Some d -> d ∈ c.
Proof.
  unfold find_bucket, FindOne. intros H.
  apply find_some in H as [H _]. by apply list_elem_of_In.
Qed.

(** The content of the map [GetCouples] builds, for any start. *)
Lemma GetCouples_loop_result (c : list Document) (addresses : list Z)
    (acc couples : gmap Z (list Couple)) :
  GetCouples_loop c addresses acc = Ok couples ->
  forall a,
    couples !! a
    = match (if decide (a ∈ addresses) then bucket_couples c a else None) with
      | Some docCouples => Some docCouples
      | None => acc !! a
      end.
Proof.
  revert acc. induction addresses as [|address rest IH]; intros acc.
  - intros [= <-] a. by rewrite decide_False by apply not_elem_of_nil.
  - cbn [GetCouples_loop]. fold (find_bucket c address).
    destruct (find_bucket c address) as [d|] eqn:Ef.
    + destruct (doc_get d "couples") as [[| | |items|]|] eqn:Ed; try done.
      destruct (couples_loop address items []) as [docCouples| |] eqn:El;
        try done.
      intros Hrun a. rewrite (IH _ Hrun a).
      assert (bucket_couples c address = Some docCouples) as Hb
        by (unfold bucket_couples; by rewrite Ef, Ed, El).
      destruct (decide (a = address)) as [->|Hne].
      * rewrite (decide_True (P := address ∈ address :: rest))
          by apply list_elem_of_here.
        rewrite Hb, lookup_insert_eq. by destruct (decide (address ∈ rest)).
      * rewrite lookup_insert_ne by done.
        destruct (decide (a ∈ rest)) as [Hin|Hout].
        -- by rewrite decide_True by (by apply list_elem_of_further).
        -- rewrite decide_False; [done |].
           intros Hin. by apply elem_of_cons in Hin as [? | ?].
    + intros Hrun a. rewrite (IH _ Hrun a).
      assert (bucket_couples c address = None) as Hb
        by (unfold bucket_couples; by rewrite Ef).
      destruct (decide (a = address)) as [->|Hne].
      * rewrite (decide_True (P := address ∈ address :: rest))
          by apply list_elem_of_here.
        rewrite Hb. by destruct (decide (address ∈ rest)).
      * destruct (decide (a ∈ rest)) as [Hin|Hout].
        -- by rewrite decide_True by (by apply list_elem_of_further).
        -- rewrite decide_False; [done |].
           intros Hin. by apply elem_of_cons in Hin as [? | ?].
Qed.

(** A successful loop has read each bucket it met entry by entry: the
    i-th couple built comes from the i-th entry. *)
Lemma couples_loop_entries (address : Z) (items : list Bson)
    (acc docCouples : list Couple) :
  couples_loop address items acc = Ok docCouples ->
  exists got, docCouples = acc ++ got
               /\ entry_couple <$> items = Some <$> got.
Proof.
  revert acc. induction items as [|item items IH]; intros acc.
  - intros [= <-]. exists []. by rewrite app_nil_r.
  - cbn [couples_loop]. destruct item as [| | | |itemMap]; try done.
    destruct (doc_get itemMap "anchorTimeMs") as [[| a | | |]|] eqn:Ea;
      try done.
    destruct (doc_get itemMap "songID") as [[| n | | |]|] eqn:En; try done.
    intros Hrun. destruct (IH _ Hrun) as (got & -> & Hgot).
    exists ({| AnchorTimeMs := uint32 a; SongID := uint32 n |} :: got).
    split; [by rewrite <- app_assoc |].
    cbn [fmap list_fmap]. rewrite <- Hgot. f_equal.
    unfold entry_couple. by rewrite Ea, En.
Qed.

Lemma GetCouples_loop_read (c : list Document) (addresses : list Z)
    (acc couples : gmap Z (list Couple)) :
  GetCouples_loop c addresses acc = Ok couples ->
  forall a d, a ∈ addresses -> find_bucket c a = Some d ->
    exists items docCouples,
      doc_get d "couples" = Some (BArray items)
      /\ couples_loop a items [] = Ok docCouples.
Proof.
  revert acc. induction addresses as [|address rest IH]; intros acc.
  - intros _ a d Ha. by apply elem_of_nil in Ha.
  - cbn [GetCouples_loop]. fold (find_bucket c address).
    destruct (find_bucket c address) as [d0|] eqn:Ef.
    + destruct (doc_get d0 "couples") as [[| | |items|]|] eqn:Ed; try done.
      destruct (couples_loop address items []) as [docCouples| |] eqn:El;
        try done.
      intros Hrun a d Ha Hd. apply elem_of_cons in Ha as [-> | Ha].
      * rewrite Ef in Hd. injection Hd as <-. by exists items, docCouples.
      * by apply (IH _ Hrun).
    + intros Hrun a d Ha Hd. apply elem_of_cons in Ha as [-> | Ha].
      * congruence.
      * by apply (IH _ Hrun).
Qed.

(** X8: what a successful [GetCouples] returns.  An address that was
    not requested, or that has no bucket, has no entry in the map.  A
    requested address that has a bucket has an entry, requested once or
    several times: as many couples as the bucket has entries, the i-th
    couple read from the i-th entry, so in stored order.  Every couple
    returned has both fields in the range of [uint32]. *)
Theorem GetCouples_result (st : Store) (addresses : list Z)
    (couples : gmap Z (list Couple)) :
  GetCouples st addresses = Ok couples ->
  (forall a, a ∉ addresses -> couples !! a = None)
  /\ (forall a, a ∈ addresses -> find_bucket (fingerprints st) a = None ->
        couples !! a = None)
  /\ (forall a d, a ∈ addresses -> find_bucket (fingerprints st) a = Some d ->
        exists items docCouples,
          doc_get d "couples" = Some (BArray items)
          /\ couples !! a = Some docCouples
          /\ entry_couple <$> items = Some <$> docCouples)
  /\ (forall a docCouples, couples !! a = Some docCouples ->
        Forall couple_ok docCouples).
Proof.
  unfold GetCouples. intros Hrun.
  assert (forall a,
            couples !! a
            = if decide (a ∈ addresses) then bucket_couples (fingerprints st) a
              else None) as Hall.
  { intros a. rewrite (GetCouples_loop_result _ _ _ _ Hrun a).
    rewrite lookup_empty.
    by destruct (if decide (a ∈ addresses)
                 then bucket_couples (fingerprints st) a else None). }
  split; [| split; [| split]].
  - intros a Hout. by rewrite Hall, decide_False.
  - intros a Hin Hnone. rewrite Hall, decide_True by done.
    unfold bucket_couples. by rewrite Hnone.
  - intros a d Hin Hd.
    destruct (GetCouples_loop_read _ _ _ _ Hrun a d Hin Hd)
      as (items & docCouples & Hitems & Hloop).
    exists items, docCouples. split; [done |]. split.
    + rewrite Hall, decide_True by done.
      unfold bucket_couples. by rewrite Hd, Hitems, Hloop.
    + destruct (couples_loop_entries _ _ _ _ Hloop) as (got & -> & Hgot).
      done.
  - intros a docCouples. rewrite Hall.
    destruct (decide (a ∈ addresses)); [| done].
    unfold bucket_couples.
    destruct (find_bucket (fingerprints st) a) as [d|]; [| done].
    destruct (doc_get d "couples") as [[| | |items|]|]; try done.
    destruct (couples_loop a items []) as [l| |] eqn:El; try done.
    intros [= <-]. by apply (couples_loop_range _ _ _ _ El).
Qed.

Lemma GetCouples_result_witness :
  let st :=
    fst (StoreFingerprints
           (fst (StoreFingerprints (mkStore [] [] false) [(5, mkCouple 1 2)]))
           [(5, mkCouple 3 4)]) in
  let couples : gmap Z (list Couple) :=
    {[5 := [mkCouple 1 2; mkCouple 3 4]]} in
  GetCouples st [5; 6; 5] = Ok couples
  /\ couples !! 6 = None
  /\ couples !! 7 = None
  /\ exists d items docCouples,
       find_bucket (fingerprints st) 5 = Some d
       /\ doc_get d "couples" = Some (BArray items)
       /\ couples !! 5 = Some docCouples
       /\ entry_couple <$> items = Some <$> docCouples.
Proof.
  cbv zeta.
  set (st := fst (StoreFingerprints
                    (fst (StoreFingerprints (mkStore [] [] false)
                            [(5, mkCouple 1 2)]))
                    [(5, mkCouple 3 4)])).
  assert (GetCouples st [5; 6; 5] = Ok {[5 := [mkCouple 1 2; mkCouple 3 4]]})
    as Hrun by (vm_compute; reflexivity).
  destruct (GetCouples_result _ _ _ Hrun) as (Hout & Hnone & Hread & _).
  split; [exact Hrun |]. split; [| split].
  - apply Hnone; [apply list_elem_of_further, list_elem_of_here | reflexivity].
  - apply Hout. intros Hin.
    repeat (apply elem_of_cons in Hin as [? | Hin]; [done |]).
    by apply elem_of_nil in Hin.
  - assert (exists d, find_bucket (fingerprints st) 5 = Some d) as [d Hd]
      by (by eexists).
    destruct (Hread 5 d) as (items & docCouples & H1 & H2 & H3);
      [apply list_elem_of_here | done |].
    by exists d, items, docCouples.
Defined.

(** X9: an index built by [StoreFingerprints] alone stays readable.
    On an index in which every document has an array "couples" of
    entries with two 64-bit integer fields (the empty index is one),
    [StoreFingerprints] succeeds for every list of entries and leaves
    such an index, and [GetCouples] returns a map for every list of
    addresses: it neither fails nor panics. *)
Theorem index_wf_kept (st : Store) :
  index_wf (fingerprints st) ->
  (forall entries,
     exists st', StoreFingerprints st entries = (st', Ok tt)
                 /\ index_wf (fingerprints st')
                 /\ songs st' = songs st)
  /\ (forall addresses, exists couples, GetCouples st addresses = Ok couples).
Proof.
  intros Hwf. split.
  - intros entries. unfold StoreFingerprints.
    assert (exists c', StoreFingerprints_range (fingerprints st) entries
                       = (c', Ok tt) /\ index_wf c') as (c' & -> & Hwf').
    { revert Hwf. generalize (fingerprints st) as c.
      induction entries as [|[a couple] rest IH]; intros c Hwf.
      - by exists c.
      - cbn [StoreFingerprints_range].
        destruct (UpdateOne_wf c a couple Hwf) as (c1 & -> & Hwf1).
        by apply IH. }
    by eexists.
  - intros addresses. unfold GetCouples.
    generalize (∅ : gmap Z (list Couple)) as acc.
    induction addresses as [|address rest IH]; intros acc.
    + by eexists.
    + cbn [GetCouples_loop]. fold (find_bucket (fingerprints st) address).
      destruct (find_bucket (fingerprints st) address) as [d|] eqn:Ef;
        [| apply IH].
      apply find_bucket_elem in Ef.
      unfold index_wf in Hwf. rewrite Forall_forall in Hwf.
      destruct (Hwf d Ef) as (items & -> & Hitems).
      destruct (couples_loop_wf address items [] Hitems) as (l & ->).
      apply IH.
Qed.

Lemma index_wf_kept_witness :
  (exists st', StoreFingerprints (mkStore [] [] false)
                 [(5, mkCouple 1 2); (5, mkCouple 3 4)] = (st', Ok tt)
               /\ index_wf (fingerprints st')
               /\ songs st' = [])
  /\ (exists couples, GetCouples (mkStore [] [] false) [5; 6] = Ok couples).
Proof.
  destruct (index_wf_kept (mkStore [] [] false)) as [Hstore Hget].
  - constructor.
  - split; [apply Hstore | apply Hget].
Defined.

Lemma GetCouples_loop_ext (c1 c2 : list Document) (addresses : list Z)
    (acc : gmap Z (list Couple)) :
  (forall a, find_bucket c1 a = find_bucket c2 a) ->
  GetCouples_loop c1 addresses acc = GetCouples_loop c2 addresses acc.
Proof.
  intros Hsame. revert acc.
  induction addresses as [|address rest IH]; intros acc; [done |].
  cbn [GetCouples_loop].
  fold (find_bucket c1 address). fold (find_bucket c2 address).
  rewrite Hsame. destruct (find_bucket c2 address) as [d|]; [| apply IH].
  destruct (doc_get d "couples") as [[| | |items|]|]; try done.
  destruct (couples_loop address items []); done.
Qed.

(** The document found for each address after a whole call. *)
Lemma StoreFingerprints_range_find (entries : list (Z * Couple))
    (c c' : list Document) (fp : gmap Z Couple) :
  NoDup entries.*1 ->
  (forall a couple, (a, couple) ∈ entries <-> fp !! a = Some couple) ->
  StoreFingerprints_range c entries = (c', Ok tt) ->
  forall a, find_bucket c' a = pushed fp c a.
Proof.
  revert c fp. induction entries as [|[address couple] rest IH];
    intros c fp Hnd Hin.
  - intros [= <-] a. unfold pushed.
    destruct (fp !! a) as [x|] eqn:E; [| done].
    apply Hin in E. by apply elem_of_nil in E.
  - cbn [fmap list_fmap fst] in Hnd. apply NoDup_cons in Hnd as [Hfresh Hnd].
    cbn [StoreFingerprints_range].
    destruct (UpdateOne c address (couple_doc couple)) as [c1|] eqn:Eu;
      [| done].
    destruct (UpdateOne_find _ _ _ _ Eu) as [Hsame Hother].
    assert (fp !! address = Some couple) as Hfp
      by (apply Hin, list_elem_of_here).
    intros Hrun a.
    rewrite (IH c1 (delete address fp) Hnd); [| | done].
    + unfold pushed. destruct (decide (a = address)) as [->|Hne].
      * rewrite lookup_delete_eq, Hfp. exact Hsame.
      * rewrite lookup_delete_ne by done. by rewrite (Hother a Hne).
    + intros a' x. rewrite lookup_delete_Some, <- Hin. split.
      * intros Hx. split; [| by apply list_elem_of_further].
        intros <-. apply Hfresh. apply list_elem_of_fmap. by exists (address, x).
      * intros [Hne Hx]. apply elem_of_cons in Hx as [[= -> ->] | Hx]; done.
Qed.

Lemma UpdateOne_Some_accepts (c c' : list Document) (address : Z)
    (item : Bson) :
  UpdateOne c address item = Some c' -> accepts c address.
Proof.
  unfold accepts, find_bucket, FindOne. revert c'.
  induction c as [|d c IH]; intros c'; cbn [UpdateOne find]; [done |].
  destruct (matches "_id" (BInt64 address) d).
  - unfold push_couples. by destruct (doc_get d "couples") as [[]|].
  - destruct (UpdateOne c address item) as [c1|]; [| done].
    intros _. by apply (IH c1).
Qed.

Lemma StoreFingerprints_range_Ok_accepts (entries : list (Z * Couple))
    (c c' : list Document) :
  NoDup entries.*1 ->
  StoreFingerprints_range c entries = (c', Ok tt) ->
  forall a, a ∈ entries.*1 -> accepts c a.
Proof.
  revert c. induction entries as [|[address couple] rest IH]; intros c Hnd.
  - intros _ a Ha. by apply elem_of_nil in Ha.
  - cbn [fmap list_fmap fst] in Hnd |- *.
    apply NoDup_cons in Hnd as [Hfresh Hnd].
    cbn [StoreFingerprints_range].
    destruct (UpdateOne c address (couple_doc couple)) as [c1|] eqn:Eu;
      [| done].
    intros Hrun a Ha. apply elem_of_cons in Ha as [-> | Ha].
    + by apply (UpdateOne_Some_accepts _ _ _ _ Eu).
    + pose proof (IH c1 Hnd Hrun a Ha) as Hacc1.
      destruct (UpdateOne_find _ _ _ _ Eu) as [_ Hother].
      unfold accepts in *. rewrite <- Hother; [done |].
      by intros ->.
Qed.

(** X10: the order in which the map is visited does not show.  Two
    visiting orders of the same map either both succeed or both fail,
    and when they succeed every [GetCouples] call returns the same from
    the two resulting indexes. *)
Theorem StoreFingerprints_order_irrelevant (st : Store) (fp : gmap Z Couple)
    (entries1 entries2 : list (Z * Couple)) :
  range_of fp entries1 -> range_of fp entries2 ->
  snd (StoreFingerprints st entries1) = Ok tt ->
  snd (StoreFingerprints st entries2) = Ok tt
  /\ forall addresses,
       GetCouples (fst (StoreFingerprints st entries1)) addresses
       = GetCouples (fst (StoreFingerprints st entries2)) addresses.
Proof.
  intros Hr1 Hr2 Hok1.
  destruct (range_of_entries fp entries1 Hr1) as (Hnd1 & Hin1 & Hdom1).
  destruct (range_of_entries fp entries2 Hr2) as (Hnd2 & Hin2 & Hdom2).
  unfold StoreFingerprints in *.
  destruct (StoreFingerprints_range (fingerprints st) entries1)
    as [c1 r1] eqn:E1.
  cbn [snd fst] in Hok1 |- *. subst r1.
  pose proof (StoreFingerprints_range_find _ _ _ _ Hnd1 Hin1 E1) as Hf1.
  assert (forall a, is_Some (fp !! a) -> accepts (fingerprints st) a) as Hacc.
  { intros a Ha. apply (StoreFingerprints_range_Ok_accepts _ _ _ Hnd1 E1).
    by apply Hdom1. }
  destruct (StoreFingerprints_range_accepted entries2 (fingerprints st) Hnd2)
    as (c2 & E2 & _ & _).
  { intros a Ha. by apply Hacc, Hdom2. }
  rewrite E2. cbn [snd fst]. split; [done |].
  pose proof (StoreFingerprints_range_find _ _ _ _ Hnd2 Hin2 E2) as Hf2.
  intros addresses. unfold GetCouples. cbn [fingerprints].
  apply GetCouples_loop_ext. intros a. by rewrite Hf1, Hf2.
Qed.

Lemma StoreFingerprints_order_irrelevant_witness :
  let st := mkStore [] [] false in
  let entries1 := [(5, mkCouple 1 2); (6, mkCouple 3 4)] in
  let entries2 := [(6, mkCouple 3 4); (5, mkCouple 1 2)] in
  snd (StoreFingerprints st entries2) = Ok tt
  /\ GetCouples (fst (StoreFingerprints st entries1)) [5; 6]
     = GetCouples (fst (StoreFingerprints st entries2)) [5; 6].
Proof.
  cbv zeta.
  assert (range_of (<[5 := mkCouple 1 2]> {[6 := mkCouple 3 4]})
            [(5, mkCouple 1 2); (6, mkCouple 3 4)]) as Hr1.
  { unfold range_of. rewrite map_to_list_insert by done.
    by rewrite map_to_list_singleton. }
  assert (range_of (<[5 := mkCouple 1 2]> {[6 := mkCouple 3 4]})
            [(6, mkCouple 3 4); (5, mkCouple 1 2)]) as Hr2.
  { unfold range_of in *. rewrite <- Hr1. apply perm_swap. }
  destruct (StoreFingerprints_order_irrelevant (mkStore [] [] false) _ _ _
              Hr1 Hr2 eq_refl) as [Hok Hsame].
  split; [exact Hok | apply Hsame].
Defined.

End FingerprintIndexMore.

(** ** More on the song registry *)

Section SongRegistryMore.
Context {srv : Server}.

Ltac unfold_GetSong :=
  unfold GetSongByID, GetSongByYTID, GetSongByKey, GetSong, selects;
  repeat match goal with
         | |- context [find (matches ?k ?v) ?c] =>
             change (find (matches k v) c) with (FindOne c k v)
         | H : context [find (matches ?k ?v) ?c] |- _ =>
             change (find (matches k v) c) with (FindOne c k v) in H
         end.

Lemma FindOne_snoc_found (c : list Document) (doc d : Document)
    (k : string) (v : Bson) :
  FindOne c k v = Some d -> FindOne (c ++ [doc]) k v = Some d.
Proof.
  unfold FindOne. induction c as [|d' c IH]; cbn [app find]; [done |].
  by destruct (matches k v d').
Qed.

(** X11: a registration does not disturb the lookups by identifier.
    After a successful [RegisterSong], every [GetSongByID] call that
    found a song finds the same song, and the fingerprint index is as it
    was. *)
Theorem RegisterSong_keeps_found (st st' : Store) (songID id lookup : Z)
    (title artist ytID : string) (s : Song) :
  RegisterSong st songID title artist ytID = (st', Ok id) ->
  GetSongByID st lookup = Ok (s, true) ->
  GetSongByID st' lookup = Ok (s, true)
  /\ fingerprints st' = fingerprints st.
Proof.
  intros Hreg Hget. split.
  - apply RegisterSong_Ok in Hreg as (_ & _ & Hs).
    revert Hget. unfold_GetSong.
    destruct (negb (Contains FILTER_KEYS "_id")); [done |].
    destruct (FindOne (songs st) "_id" (BInt64 lookup)) as [d|] eqn:Ef;
      [| done].
    by rewrite Hs, (FindOne_snoc_found _ _ _ _ _ Ef).
  - unfold RegisterSong in Hreg.
    destruct (CreateOne st) as [st1|] eqn:Ec; [| done].
    assert (fingerprints st1 = fingerprints st) as Hf.
    { unfold CreateOne in Ec. destruct (songs_index st); [by injection Ec as <- |].
      destruct (unique_keys (songs st)); [by injection Ec as <- | done]. }
    unfold InsertOne in Hreg.
    destruct (_ || _); [done |]. by injection Hreg as <- _.
Qed.

(** A registration that returns no identifier returns an error and
    leaves the songs as they were. *)
Lemma RegisterSong_not_Ok (st st' : Store) (songID : Z)
    (title artist ytID : string) (r : outcome error Z) :
  RegisterSong st songID title artist ytID = (st', r) ->
  match r with
  | Ok _ => True
  | Err _ => songs st' = songs st
  | Panic => False
  end.
Proof.
  unfold RegisterSong.
  destruct (CreateOne st) as [st1|] eqn:Ec; [| by intros [= <- <-]].
  assert (songs st1 = songs st) as Hs.
  { unfold CreateOne in Ec. destruct (songs_index st); [by injection Ec as <- |].
    destruct (unique_keys (songs st)); [by injection Ec as <- | done]. }
  destruct (InsertOne st1 _); by intros [= <- <-].
Qed.

(** X12: a registration adds one song or none.  When [RegisterSong]
    returns an identifier, [TotalSongs] is one more than before; when it
    returns an error, the collection of songs is as before. *)
Theorem RegisterSong_count (st : Store) (songID : Z)
    (title artist ytID : string) :
  let r := RegisterSong st songID title artist ytID in
  match snd r with
  | Ok id =>
      id = songID
      /\ TotalSongs (fst r) = Ok (Z.of_nat (length (songs st)) + 1)
  | Err _ => songs (fst r) = songs st
  | Panic => False
  end.
Proof.
  cbv zeta.
  destruct (RegisterSong st songID title artist ytID) as [st' [id|e|]] eqn:E;
    cbn [fst snd].
  - apply RegisterSong_Ok in E as (-> & _ & Hs). split; [done |].
    unfold TotalSongs. rewrite Hs, length_app. cbn [length]. f_equal. lia.
  - apply (RegisterSong_not_Ok _ _ _ _ _ _ _ E).
  - apply (RegisterSong_not_Ok _ _ _ _ _ _ _ E).
Qed.

(** A key made by [GenerateSongKey] contains the separator. *)
Lemma Index_key (title artist : string) :
  exists i, Index (GenerateSongKey title artist) "---" = Some i.
Proof.
  unfold GenerateSongKey. induction title as [|ch title [i IH]].
  - exists 0%nat. by destruct artist.
  - change (String ch title +:+ "---" +:+ artist)
      with (String ch (title +:+ "---" +:+ artist)).
    remember (title +:+ "---" +:+ artist) as key eqn:Ek.
    assert (Index (String ch key) "---"
            = if String.prefix "---" (String ch key) then Some 0%nat
              else option_map S (Index key "---")) as -> by reflexivity.
    destruct (String.prefix "---" (String ch key)).
    + by exists 0%nat.
    + exists (S i). by rewrite IH.
Qed.

(** Such a key splits into at least two pieces. *)
Lemma Split_key_two (title artist : string) :
  exists piece1 piece2 rest,
    Split (GenerateSongKey title artist) "---" = piece1 :: piece2 :: rest.
Proof.
  destruct (Index_key title artist) as [i Hi].
  unfold Split, Count.
  destruct (String.length (GenerateSongKey title artist)) as [|fuel] eqn:El.
  { exfalso. unfold GenerateSongKey in El.
    destruct title; simpl in El; discriminate El. }
  cbn [Count_loop]. rewrite Hi. cbn [genSplit]. rewrite Hi.
  destruct (genSplit_nonempty
              (Count_loop fuel
                 (drop_str (i + String.length "---")
                    (GenerateSongKey title artist)) "---")
              (drop_str (i + String.length "---")
                 (GenerateSongKey title artist)) "---") as (p & r & ->).
  by eexists _, _, _.
Qed.

Lemma registry_wf_snoc (c : list Document) (songID : Z)
    (title artist ytID : string) :
  registry_wf c ->
  registry_wf (c ++ [song_doc songID (GenerateSongKey title artist) ytID]).
Proof.
  intros Hwf. apply Forall_app. split; [done |].
  constructor; [| constructor]. by exists songID, title, artist, ytID.
Qed.

Lemma DeleteOne_elem (c : list Document) (k : string) (v : Bson)
    (x : Document) :
  x ∈ DeleteOne c k v -> x ∈ c.
Proof.
  induction c as [|d c IH]; cbn [DeleteOne]; [done |].
  destruct (matches k v d).
  - apply list_elem_of_further.
  - intros Hx. apply elem_of_cons in Hx as [-> | Hx].
    + apply list_elem_of_here.
    + by apply list_elem_of_further, IH.
Qed.

(** X13: a registry built by [RegisterSong] alone stays well formed and
    readable.  On a collection in which every document has the fields
    [RegisterSong] writes (the empty collection is one), [RegisterSong]
    and [DeleteSongByID] leave such a collection, and [GetSong] never
    panics: it returns the filter-key error exactly for a refused key,
    the retrieve error exactly when the key is accepted and the server
    rejects the filter, and otherwise reports a song exactly when the
    filter selects a document; for a number or a string as value the
    filter is the equality test. *)
Theorem registry_wf_kept (st : Store) :
  registry_wf (songs st) ->
  (forall songID title artist ytID,
     registry_wf (songs (fst (RegisterSong st songID title artist ytID))))
  /\ (forall songID, registry_wf (songs (fst (DeleteSongByID st songID))))
  /\ (forall filterKey value,
        match GetSong st filterKey value with
        | Panic => False
        | Err e =>
            e = ErrFilterKey /\ Contains FILTER_KEYS filterKey = false
            \/ e = ErrRetrieve /\ Contains FILTER_KEYS filterKey = true
               /\ selects filterKey value = None
        | Ok (s, found) =>
            Contains FILTER_KEYS filterKey = true
            /\ exists selected,
                 selects filterKey value = Some selected
                 /\ found = bool_decide (is_Some (find selected (songs st)))
        end)
  /\ (forall filterKey n,
        selects filterKey (BInt64 n) = Some (matches filterKey (BInt64 n)))
  /\ (forall filterKey text,
        selects filterKey (BString text)
        = Some (matches filterKey (BString text))).
Proof.
  intros Hwf. split; [| split; [| split; [| done]]].
  - intros songID title artist ytID.
    destruct (RegisterSong st songID title artist ytID) as [st' [id|e|]] eqn:E;
      cbn [fst].
    + apply RegisterSong_Ok in E as (_ & _ & ->). by apply registry_wf_snoc.
    + by rewrite (RegisterSong_not_Ok _ _ _ _ _ _ _ E).
    + by destruct (RegisterSong_not_Ok _ _ _ _ _ _ _ E).
  - intros songID. cbn [DeleteSongByID fst songs].
    unfold registry_wf in *. rewrite Forall_forall in *.
    intros d Hd. by apply Hwf, (DeleteOne_elem _ "_id" (BInt64 songID)).
  - intros filterKey value. unfold GetSong.
    destruct (Contains FILTER_KEYS filterKey); cbn [negb]; [| by left].
    destruct (selects filterKey value) as [selected|] eqn:Es; [| by right].
    destruct (find selected (songs st)) as [d|] eqn:Ef.
    2:{ split; [done |]. exists selected. by rewrite Ef. }
    assert (d ∈ songs st) as Hd.
    { apply find_some in Ef as [Hin _]. by apply list_elem_of_In. }
    unfold registry_wf in Hwf. rewrite Forall_forall in Hwf.
    destruct (Hwf d Hd) as (songID & title & artist & ytID & ->).
    change (doc_get (song_doc songID (GenerateSongKey title artist) ytID) "ytID")
      with (Some (BString ytID)).
    change (doc_get (song_doc songID (GenerateSongKey title artist) ytID) "key")
      with (Some (BString (GenerateSongKey title artist))).
    cbn beta iota.
    destruct (Split_key_two title artist) as (p1 & p2 & rest & ->).
    cbn. split; [done |]. exists selected. by rewrite Ef.
Qed.

Lemma FindOne_exists (c : list Document) (k : string) (v : Bson)
    (doc : Document) :
  doc ∈ c -> matches k v doc = true ->
  exists d, FindOne c k v = Some d /\ d ∈ c /\ matches k v d = true.
Proof.
  unfold FindOne. induction c as [|d c IH]; intros Hin Hm.
  - by apply elem_of_nil in Hin.
  - cbn [find]. destruct (matches k v d) eqn:Ed.
    + exists d. split; [done |]. split; [apply list_elem_of_here | done].
    + apply elem_of_cons in Hin as [-> | Hin]; [congruence |].
      destruct (IH Hin Hm) as (d' & Hf & Hd' & Hm').
      exists d'. split; [done |]. split; [by apply list_elem_of_further | done].
Qed.

(** X18: a registered song can be looked up by its externalRef and by
    its key.  On a collection built by [RegisterSong] alone, after a
    successful registration [GetSongByYTID] with the externalRef finds a
    song, and that song carries this externalRef; [GetSongByKey] with
    the key of the title and artist finds a song too. *)
Theorem RegisterSong_then_lookup (st st' : Store) (songID id : Z)
    (title artist ytID : string) :
  registry_wf (songs st) ->
  RegisterSong st songID title artist ytID = (st', Ok id) ->
  (exists s, GetSongByYTID st' ytID = Ok (s, true) /\ YouTubeID s = ytID)
  /\ (exists s, GetSongByKey st' (GenerateSongKey title artist) = Ok (s, true)).
Proof.
  intros Hwf Hreg. apply RegisterSong_Ok in Hreg as (_ & _ & Hs).
  assert (registry_wf (songs st')) as Hwf'
    by (rewrite Hs; by apply registry_wf_snoc).
  assert (song_doc songID (GenerateSongKey title artist) ytID ∈ songs st')
    as Hin by (rewrite Hs; apply elem_of_app; right; apply list_elem_of_here).
  unfold registry_wf in Hwf'. rewrite Forall_forall in Hwf'.
  split.
  - destruct (FindOne_exists (songs st') "ytID" (BString ytID) _ Hin)
      as (d & Hf & Hd & Hm); [unfold matches; cbn; apply String.eqb_refl |].
    destruct (Hwf' d Hd) as (i & t & a & y & ->).
    assert (y = ytID) as ->.
    { unfold matches in Hm. cbn in Hm. by apply String.eqb_eq in Hm. }
    unfold_GetSong.
    change (Contains FILTER_KEYS "ytID") with true. cbn [negb]. rewrite Hf.
    change (doc_get (song_doc i (GenerateSongKey t a) ytID) "ytID")
      with (Some (BString ytID)).
    change (doc_get (song_doc i (GenerateSongKey t a) ytID) "key")
      with (Some (BString (GenerateSongKey t a))).
    cbn beta iota.
    destruct (Split_key_two t a) as (p1 & p2 & rest & ->).
    cbn. by eexists.
  - destruct (FindOne_exists (songs st') "key"
                (BString (GenerateSongKey title artist)) _ Hin)
      as (d & Hf & Hd & Hm); [unfold matches; cbn; apply String.eqb_refl |].
    destruct (Hwf' d Hd) as (i & t & a & y & ->).
    unfold_GetSong.
    change (Contains FILTER_KEYS "key") with true. cbn [negb]. rewrite Hf.
    change (doc_get (song_doc i (GenerateSongKey t a) y) "ytID")
      with (Some (BString y)).
    change (doc_get (song_doc i (GenerateSongKey t a) y) "key")
      with (Some (BString (GenerateSongKey t a))).
    cbn beta iota.
    destruct (Split_key_two t a) as (p1 & p2 & rest & ->).
    cbn. by eexists.
Qed.

End SongRegistryMore.

Lemma RegisterSong_keeps_found_witness :
  let st := fst (RegisterSong (mkStore [] [] false) 7 "T" "A" "yt1") in
  let st' := fst (RegisterSong st 8 "U" "B" "yt2") in
  GetSongByID st' 7 = Ok (mkSong "T" "A" "yt1", true)
  /\ fingerprints st' = fingerprints st.
Proof.
  cbv zeta.
  apply (RegisterSong_keeps_found _ _ 8 8 7 "U" "B" "yt2"); reflexivity.
Defined.

Lemma registry_wf_kept_witness :
  let st := fst (RegisterSong (mkStore [] [] false) 7 "a---b" "c" "yt1") in
  registry_wf (songs (fst (RegisterSong st 8 "T" "A" "yt2")))
  /\ registry_wf (songs (fst (DeleteSongByID st 7)))
  /\ GetSong st "key" (BString "a---b---c") <> Panic.
Proof.
  cbv zeta.
  destruct (registry_wf_kept
              (fst (RegisterSong (mkStore [] [] false) 7 "a---b" "c" "yt1")))
    as (Hreg & Hdel & Hget & _).
  - constructor; [| constructor]. by exists 7, "a---b"%string, "c"%string, "yt1"%string.
  - split; [apply Hreg |]. split; [apply Hdel |].
    specialize (Hget "key"%string (BString "a---b---c")).
    intros Hp. by rewrite Hp in Hget.
Defined.

Lemma RegisterSong_then_lookup_witness :
  let st := fst (RegisterSong (mkStore [] [] false) 7 "T" "A" "yt1") in
  let st' := fst (RegisterSong st 8 "U" "B" "yt2") in
  (exists s, GetSongByYTID st' "yt2" = Ok (s, true) /\ YouTubeID s = "yt2"%string)
  /\ (exists s, GetSongByKey st' (GenerateSongKey "U" "B") = Ok (s, true)).
Proof.
  cbv zeta.
  apply (RegisterSong_then_lookup
           (fst (RegisterSong (mkStore [] [] false) 7 "T" "A" "yt1")) _
           8 8 "U" "B" "yt2").
  - constructor; [| constructor]. by exists 7, "T"%string, "A"%string, "yt1"%string.
  - reflexivity.
Defined.

(** ** Deleting songs and dropping collections *)

Section Deleting.
Context {srv : Server}.

Ltac unfold_GetSong :=
  unfold GetSongByID, GetSongByYTID, GetSongByKey, GetSong, selects;
  repeat match goal with
         | |- context [find (matches ?k ?v) ?c] =>
             change (find (matches k v) c) with (FindOne c k v)
         end.

Lemma FindOne_DeleteOne_other (c : list Document) (songID id' : Z) :
  id' <> songID ->
  FindOne (DeleteOne c "_id" (BInt64 songID)) "_id" (BInt64 id')
  = FindOne c "_id" (BInt64 id').
Proof.
  intros Hne. unfold FindOne.
  induction c as [|d c IH]; cbn [DeleteOne find]; [done |].
  destruct (matches "_id" (BInt64 songID) d) eqn:Em.
  - by rewrite (matches_id_ne _ _ _ Em Hne).
  - cbn [find]. by destruct (matches "_id" (BInt64 id') d).
Qed.

Lemma DeleteOne_free (c : list Document) (songID : Z) :
  id_free c songID -> DeleteOne c "_id" (BInt64 songID) = c.
Proof.
  unfold id_free. induction c as [|d c IH]; intros Hfree; [done |].
  cbn [DeleteOne]. rewrite Hfree by apply list_elem_of_here.
  f_equal. apply IH. intros d' Hd'. by apply Hfree, list_elem_of_further.
Qed.

Lemma DeleteOne_snoc (c : list Document) (doc : Document) (songID : Z) :
  id_free c songID -> matches "_id" (BInt64 songID) doc = true ->
  DeleteOne (c ++ [doc]) "_id" (BInt64 songID) = c.
Proof.
  unfold id_free. induction c as [|d c IH]; intros Hfree Hdoc.
  - cbn. by rewrite Hdoc.
  - cbn [app DeleteOne]. rewrite Hfree by apply list_elem_of_here.
    f_equal. apply IH; [| done].
    intros d' Hd'. by apply Hfree, list_elem_of_further.
Qed.

Lemma FindOne_free (c : list Document) (songID : Z) :
  id_free c songID -> FindOne c "_id" (BInt64 songID) = None.
Proof.
  unfold id_free, FindOne. induction c as [|d c IH]; intros Hfree; [done |].
  cbn [find]. rewrite Hfree by apply list_elem_of_here.
  apply IH. intros d' Hd'. by apply Hfree, list_elem_of_further.
Qed.

Lemma length_DeleteOne (c : list Document) (k : string) (v : Bson) :
  length (DeleteOne c k v)
  = (length c - match FindOne c k v with Some _ => 1 | None => 0 end)%nat.
Proof.
  unfold FindOne. induction c as [|d c IH]; cbn [DeleteOne find length]; [done |].
  destruct (matches k v d); [lia |]. cbn [length]. rewrite IH.
  destruct (find (matches k v) c) as [d'|] eqn:Ef; [| lia].
  apply find_some in Ef as [Hin _]. destruct c; [done | cbn [length]; lia].
Qed.

(** X14: what [DeleteSongByID] does.  It always succeeds; when no song
    has the identifier nothing changes; otherwise exactly one song is
    removed; the lookup of every other identifier answers as before; and
    the fingerprint index is untouched. *)
Theorem DeleteSongByID_effect (st : Store) (songID : Z) :
  let r := DeleteSongByID st songID in
  snd r = Ok tt
  /\ fingerprints (fst r) = fingerprints st
  /\ (id_free (songs st) songID -> fst r = st)
  /\ TotalSongs (fst r)
     = Ok (Z.of_nat (length (songs st))
           - match FindOne (songs st) "_id" (BInt64 songID) with
             | Some _ => 1
             | None => 0
             end)
  /\ (forall id', id' <> songID ->
        GetSongByID (fst r) id' = GetSongByID st id').
Proof.
  cbv zeta. unfold DeleteSongByID. cbn [fst snd fingerprints].
  split; [done |]. split; [done |]. split; [| split].
  - intros Hfree. rewrite (DeleteOne_free _ _ Hfree). by destruct st.
  - unfold TotalSongs. cbn [songs]. rewrite length_DeleteOne. f_equal.
    destruct (FindOne (songs st) "_id" (BInt64 songID)) as [d|] eqn:Ef; [| lia].
    unfold FindOne in Ef. apply find_some in Ef as [Hin _].
    destruct (songs st); [done | cbn [length]; lia].
  - intros id' Hne. unfold_GetSong. cbn [songs].
    by rewrite FindOne_DeleteOne_other.
Qed.

(** X15: registering a song and deleting it by the identifier returned
    gives back the songs there were, and the identifier is no longer
    found. *)
Theorem RegisterSong_then_delete (st st' : Store) (songID id : Z)
    (title artist ytID : string) :
  RegisterSong st songID title artist ytID = (st', Ok id) ->
  songs (fst (DeleteSongByID st' id)) = songs st
  /\ GetSongByID (fst (DeleteSongByID st' id)) id
     = Ok (mkSong "" "" "", false).
Proof.
  intros Hreg. apply RegisterSong_Ok in Hreg as (-> & Hfree & Hs).
  assert (songs (fst (DeleteSongByID st' songID)) = songs st) as Hback.
  { cbn [DeleteSongByID fst songs]. rewrite Hs.
    apply DeleteOne_snoc; [done |]. unfold matches. cbn. lia. }
  split; [done |].
  unfold_GetSong. change (Contains FILTER_KEYS "_id") with true.
  cbn [negb]. by rewrite Hback, FindOne_free.
Qed.

Lemma unique_ids_snoc (c : list Document) (doc : Document) :
  unique_ids c = true ->
  existsb (fun d => field_eqb (doc_get d "_id") (doc_get doc "_id")) c = false ->
  unique_ids (c ++ [doc]) = true.
Proof.
  induction c as [|d c IH]; intros Hu Hnew; [done |].
  cbn [unique_ids app existsb] in *.
  apply andb_true_iff in Hu as [Hd Hc].
  apply orb_false_iff in Hnew as [Hdn Hcn].
  rewrite forallb_app, Hd, IH by done. cbn [forallb]. by rewrite Hdn.
Qed.

Lemma unique_ids_DeleteOne (c : list Document) (k : string) (v : Bson) :
  unique_ids c = true -> unique_ids (DeleteOne c k v) = true.
Proof.
  induction c as [|d c IH]; [done |]. cbn [unique_ids DeleteOne].
  intros Hu. apply andb_true_iff in Hu as [Hd Hc].
  destruct (matches k v d); [done |]. cbn [unique_ids].
  rewrite IH by done. rewrite andb_true_r.
  rewrite forallb_forall in Hd |- *. intros x Hx. apply Hd.
  apply list_elem_of_In. apply list_elem_of_In in Hx.
  by apply (DeleteOne_elem _ k v).
Qed.

Lemma matches_same_field (d d' : Document) (songID : Z) :
  matches "_id" (BInt64 songID) d = true ->
  matches "_id" (BInt64 songID) d' = true ->
  field_eqb (doc_get d "_id") (doc_get d' "_id") = true.
Proof.
  unfold matches, field_eqb.
  destruct (doc_get d "_id") as [[]|], (doc_get d' "_id") as [[]|];
    cbn; try done; lia.
Qed.

Lemma DeleteOne_unique_free (c : list Document) (songID : Z) :
  unique_ids c = true -> id_free (DeleteOne c "_id" (BInt64 songID)) songID.
Proof.
  unfold id_free. induction c as [|d c IH]; cbn [unique_ids DeleteOne].
  - intros _ x Hx. by apply elem_of_nil in Hx.
  - intros Hu. apply andb_true_iff in Hu as [Hd Hc].
    destruct (matches "_id" (BInt64 songID) d) eqn:Em.
    + intros x Hx. rewrite forallb_forall in Hd.
      specialize (Hd x (proj1 (list_elem_of_In _ _) Hx)).
      destruct (matches "_id" (BInt64 songID) x) eqn:Ex; [| done].
      by rewrite (matches_same_field _ _ _ Em Ex) in Hd.
    + intros x Hx. apply elem_of_cons in Hx as [-> | Hx]; [done |].
      by apply IH.
Qed.

(** X16: identifiers stay unique, and a deleted identifier is gone.  On
    a collection in which no two songs share an identifier,
    [RegisterSong] and [DeleteSongByID] leave such a collection, and
    after [DeleteSongByID] the lookup of the deleted identifier reports
    that no song was found. *)
Theorem unique_ids_kept (st : Store) :
  unique_ids (songs st) = true ->
  (forall songID title artist ytID,
     unique_ids (songs (fst (RegisterSong st songID title artist ytID))) = true)
  /\ (forall songID,
        unique_ids (songs (fst (DeleteSongByID st songID))) = true
        /\ GetSongByID (fst (DeleteSongByID st songID)) songID
           = Ok (mkSong "" "" "", false)).
Proof.
  intros Hu. split.
  - intros songID title artist ytID.
    destruct (RegisterSong st songID title artist ytID) as [st' [id|e|]] eqn:E;
      cbn [fst].
    + apply RegisterSong_Ok in E as (_ & Hfree & ->).
      apply unique_ids_snoc; [done |].
      by apply (existsb_id _ songID (GenerateSongKey title artist) ytID).
    + by rewrite (RegisterSong_not_Ok _ _ _ _ _ _ _ E).
    + by destruct (RegisterSong_not_Ok _ _ _ _ _ _ _ E).
  - intros songID. cbn [DeleteSongByID fst songs]. split.
    + by apply unique_ids_DeleteOne.
    + unfold_GetSong. change (Contains FILTER_KEYS "_id") with true.
      cbn [negb songs]. rewrite FindOne_free; [done |].
      by apply DeleteOne_unique_free.
Qed.

Lemma GetCouples_loop_empty (addresses : list Z)
    (acc : gmap Z (list Couple)) :
  GetCouples_loop [] addresses acc = Ok acc.
Proof. induction addresses as [|a rest IH]; [done | apply IH]. Qed.

(** X17: what [DeleteCollection] does.  Dropping "fingerprints"
    succeeds, leaves the songs alone and makes every [GetCouples] call
    return the empty map; dropping "songs" succeeds, leaves the index
    alone, brings [TotalSongs] to zero and lets any song be registered
    again; for a collection of another name the store stays as it is,
    and the call fails with the drop error exactly when the server
    rejects the drop. *)
Theorem DeleteCollection_effect (st : Store) :
  (let r := DeleteCollection st "fingerprints" in
   snd r = Ok tt /\ songs (fst r) = songs st
   /\ songs_index (fst r) = songs_index st
   /\ forall addresses, GetCouples (fst r) addresses = Ok ∅)
  /\ (let r := DeleteCollection st "songs" in
      snd r = Ok tt /\ fingerprints (fst r) = fingerprints st
      /\ TotalSongs (fst r) = Ok 0
      /\ forall songID title artist ytID,
           snd (RegisterSong (fst r) songID title artist ytID) = Ok songID)
  /\ (forall collectionName,
        collectionName <> "fingerprints"%string ->
        collectionName <> "songs"%string ->
        DeleteCollection st collectionName
        = (st, if refuses_drop collectionName then Err ErrDrop else Ok tt)).
Proof.
  cbv zeta. split; [| split].
  - cbn. repeat (split; [done |]). intros addresses.
    apply GetCouples_loop_empty.
  - cbn. repeat (split; [done |]). done.
  - intros name Hf Hs. unfold DeleteCollection.
    rewrite (proj2 (String.eqb_neq _ _) Hf), (proj2 (String.eqb_neq _ _) Hs).
    by destruct (refuses_drop name).
Qed.

End Deleting.

Lemma DeleteSongByID_effect_witness :
  let st := fst (RegisterSong (mkStore [] [] false) 7 "T" "A" "yt1") in
  fst (DeleteSongByID st 8) = st
  /\ GetSongByID (fst (DeleteSongByID st 8)) 7 = GetSongByID st 7.
Proof.
  cbv zeta.
  destruct (DeleteSongByID_effect
              (fst (RegisterSong (mkStore [] [] false) 7 "T" "A" "yt1")) 8)
    as (_ & _ & Hfree & _ & Hother).
  split.
  - apply Hfree. intros d Hd. apply list_elem_of_singleton in Hd as ->.
    reflexivity.
  - apply Hother. lia.
Defined.

Lemma RegisterSong_then_delete_witness :
  let st := fst (RegisterSong (mkStore [] [] false) 7 "T" "A" "yt1") in
  let st' := fst (RegisterSong st 8 "U" "B" "yt2") in
  songs (fst (DeleteSongByID st' 8)) = songs st
  /\ GetSongByID (fst (DeleteSongByID st' 8)) 8 = Ok (mkSong "" "" "", false).
Proof.
  cbv zeta. apply (RegisterSong_then_delete _ _ 8 8 "U" "B" "yt2").
  reflexivity.
Defined.

Lemma unique_ids_kept_witness :
  let st := fst (RegisterSong (mkStore [] [] false) 7 "T" "A" "yt1") in
  unique_ids (songs (fst (RegisterSong st 8 "U" "B" "yt2"))) = true
  /\ GetSongByID (fst (DeleteSongByID st 7)) 7 = Ok (mkSong "" "" "", false).
Proof.
  cbv zeta.
  destruct (unique_ids_kept
              (fst (RegisterSong (mkStore [] [] false) 7 "T" "A" "yt1")))
    as [Hreg Hdel]; [reflexivity |].
  split; [apply Hreg | apply Hdel].
Defined.

Lemma DeleteCollection_effect_witness :
  let st := fst (RegisterSong (mkStore [] [] false) 7 "T" "A" "yt1") in
  DeleteCollection st "" = (st, Err ErrDrop)
  /\ DeleteCollection st "song" = (st, Ok tt).
Proof.
  cbv zeta.
  pose proof (proj2 (proj2 (DeleteCollection_effect
                (fst (RegisterSong (mkStore [] [] false) 7 "T" "A" "yt1")))))
    as Hdrop.
  split.
  - exact (Hdrop ""%string ltac:(done) ltac:(done)).
  - exact (Hdrop "song"%string ltac:(done) ltac:(done)).
Defined.
